(** * Ignition delivery for libvirt machines: a shallow embedding

    This development embeds [pkg/cloud/libvirt/client/ignition.go] (and the
    older revision of the same file, which differs in the guestfish session)
    and states the behaviour of the configuration resolver, of the firmware
    channel injector and of the guestfish injection session as theorems.

    Go strings are byte strings: they are modelled by [string], whose
    characters are the 256 byte values.  Everything the Go code obtains from
    its surroundings (the local filesystem, the random names of temporary
    files, external processes, the storage pool) is read from an explicit
    [World]; errors are values, and a panic is an outcome of its own. *)

From Stdlib Require Import ZArith NArith String Ascii List Bool Lia.
From stdpp Require Import base option list strings gmap.

Import ListNotations.
Local Open Scope string_scope.
Local Open Scope list_scope.
Local Open Scope Z_scope.

(** ** Go's [strings] package *)

Module strings.

(** [strings.Split(s, sep)] for a separator of one byte, which is what every
    call in the embedded code passes ([";"], ["="], [":"]).  The result has
    one more element than [s] has separators, and is never empty. *)
Fixpoint Split (s : string) (sep : ascii) : list string :=
  match s with
  | EmptyString => [EmptyString]
  | String c rest =>
      if Ascii.eqb c sep then EmptyString :: Split rest sep
      else match Split rest sep with
           | piece :: pieces => String c piece :: pieces
           | [] => [String c EmptyString]
           end
  end.

(** [strings.Join(elems, sep)]. *)
Fixpoint Join (elems : list string) (sep : string) : string :=
  match elems with
  | [] => EmptyString
  | [e] => e
  | e :: rest => e +:+ sep +:+ Join rest sep
  end.

Definition byte_of (c : ascii) : Z := Z.of_N (N_of_ascii c).

(** The six ASCII bytes of [unicode.IsSpace]. *)
Definition asciiSpace (c : ascii) : bool :=
  let b := byte_of c in
  (b =? 9) || (b =? 10) || (b =? 11) || (b =? 12) || (b =? 13) || (b =? 32).

(** The two-byte UTF-8 encodings of white space: U+0085 and U+00A0. *)
Definition space2 (c0 c1 : ascii) : bool :=
  (byte_of c0 =? 194) && ((byte_of c1 =? 133) || (byte_of c1 =? 160)).

(** The three-byte UTF-8 encodings of white space: U+1680, U+2000..U+200A,
    U+2028, U+2029, U+202F, U+205F and U+3000. *)
Definition space3 (c0 c1 c2 : ascii) : bool :=
  let b0 := byte_of c0 in let b1 := byte_of c1 in let b2 := byte_of c2 in
  ((b0 =? 225) && (b1 =? 154) && (b2 =? 128))
  || ((b0 =? 226) && (b1 =? 128)
      && (((128 <=? b2) && (b2 <=? 138)) || (b2 =? 168) || (b2 =? 169) || (b2 =? 175)))
  || ((b0 =? 226) && (b1 =? 129) && (b2 =? 159))
  || ((b0 =? 227) && (b1 =? 128) && (b2 =? 128)).

(** [strings.TrimLeftFunc(s, unicode.IsSpace)]: drops leading white-space
    runes; a byte that does not start one of the encodings above stops it. *)
Fixpoint TrimLeftSpace (s : string) : string :=
  match s with
  | EmptyString => s
  | String c0 r0 =>
      if asciiSpace c0 then TrimLeftSpace r0
      else match r0 with
           | EmptyString => s
           | String c1 r1 =>
               if space2 c0 c1 then TrimLeftSpace r1
               else match r1 with
                    | EmptyString => s
                    | String c2 r2 =>
                        if space3 c0 c1 c2 then TrimLeftSpace r2 else s
                    end
           end
  end.

(** The same scan over the reversed bytes: the last rune of the string is
    decoded from its last byte backwards. *)
Fixpoint TrimRevSpace (l : list ascii) : list ascii :=
  match l with
  | [] => l
  | c0 :: r0 =>
      if asciiSpace c0 then TrimRevSpace r0
      else match r0 with
           | [] => l
           | c1 :: r1 =>
               if space2 c1 c0 then TrimRevSpace r1
               else match r1 with
                    | [] => l
                    | c2 :: r2 =>
                        if space3 c2 c1 c0 then TrimRevSpace r2 else l
                    end
           end
  end.

Definition TrimRightSpace (s : string) : string :=
  string_of_list_ascii (rev (TrimRevSpace (rev (list_ascii_of_string s)))).

(** [strings.TrimSpace(s)]: leading and trailing Unicode white space
    removed. *)
Definition TrimSpace (s : string) : string :=
  TrimRightSpace (TrimLeftSpace s).

End strings.

(** ** Go's [encoding/json], as far as [json.Unmarshal] into a
       [map[string]interface{}] decides between success and error *)

Module json.

Import strings.

(** The scanner of [encoding/json] is a state machine driven one byte at a
    time; [parseState] is its stack of enclosing composite values. *)
Inductive parseState := parseObjectKey | parseObjectValue | parseArrayValue.

Inductive step :=
| stateBeginValue | stateBeginValueOrEmpty | stateBeginStringOrEmpty
| stateBeginString | stateEndValue | stateEndTop
| stateInString | stateInStringEsc
| stateInStringEscU | stateInStringEscU1 | stateInStringEscU12 | stateInStringEscU123
| stateNeg | state1 | state0 | stateDot | stateDot0 | stateE | stateESign | stateE0
| stateT | stateTr | stateTru
| stateF | stateFa | stateFal | stateFals
| stateN | stateNu | stateNul
| stateError.

Record scanner := { scan_step : step; scan_parseState : list parseState }.

Definition goto (st : step) (ps : list parseState) : scanner :=
  {| scan_step := st; scan_parseState := ps |}.

Definition failed : scanner := goto stateError [].

Definition quote : ascii := "034"%char.

Definition isByte (c k : ascii) : bool := Ascii.eqb c k.

Definition isSpace (c : ascii) : bool :=
  isByte c " "%char || (byte_of c =? 9) || (byte_of c =? 13) || (byte_of c =? 10).

Definition isDigit (c : ascii) : bool := (48 <=? byte_of c) && (byte_of c <=? 57).
Definition isDigit19 (c : ascii) : bool := (49 <=? byte_of c) && (byte_of c <=? 57).
Definition isHex (c : ascii) : bool :=
  isDigit c
  || ((97 <=? byte_of c) && (byte_of c <=? 102))
  || ((65 <=? byte_of c) && (byte_of c <=? 70)).

(** [popParseState]. *)
Definition popParseState (ps : list parseState) : scanner :=
  match ps with
  | [] => failed
  | _ :: [] => goto stateEndTop []
  | _ :: rest => goto stateEndValue rest
  end.

Definition doEndTop (c : ascii) : scanner :=
  if isSpace c then goto stateEndTop [] else failed.

(** [stateEndValue]: the byte after a complete value. *)
Definition doEndValue (ps : list parseState) (c : ascii) : scanner :=
  match ps with
  | [] => doEndTop c
  | top :: rest =>
      if isSpace c then goto stateEndValue ps
      else match top with
           | parseObjectKey =>
               if isByte c ":"%char then goto stateBeginValue (parseObjectValue :: rest)
               else failed
           | parseObjectValue =>
               if isByte c ","%char then goto stateBeginString (parseObjectKey :: rest)
               else if isByte c "}"%char then popParseState ps
               else failed
           | parseArrayValue =>
               if isByte c ","%char then goto stateBeginValue ps
               else if isByte c "]"%char then popParseState ps
               else failed
           end
  end.

(** [maxNestingDepth]. *)
Definition maxNestingDepth : Z := 10000.

(** [pushParseState]: one more enclosing value is open.  The scanner of
    [encoding/json] fails when more than [maxNestingDepth] are; without a
    limit, this is the grammar of JSON alone. *)
Definition pushParseState (limit : option Z) (ps : list parseState) (newParseState : parseState)
    (successState : step) : scanner :=
  let ps' := newParseState :: ps in
  match limit with
  | Some n => if Z.of_nat (length ps') <=? n then goto successState ps' else failed
  | None => goto successState ps'
  end.

Definition doBeginValue (limit : option Z) (ps : list parseState) (c : ascii) : scanner :=
  if isSpace c then goto stateBeginValue ps
  else if isByte c "{"%char then pushParseState limit ps parseObjectKey stateBeginStringOrEmpty
  else if isByte c "["%char then pushParseState limit ps parseArrayValue stateBeginValueOrEmpty
  else if isByte c quote then goto stateInString ps
  else if isByte c "-"%char then goto stateNeg ps
  else if isByte c "0"%char then goto state0 ps
  else if isByte c "t"%char then goto stateT ps
  else if isByte c "f"%char then goto stateF ps
  else if isByte c "n"%char then goto stateN ps
  else if isDigit19 c then goto state1 ps
  else failed.

Definition doBeginString (ps : list parseState) (c : ascii) : scanner :=
  if isSpace c then goto stateBeginString ps
  else if isByte c quote then goto stateInString ps
  else failed.

Definition do0 (ps : list parseState) (c : ascii) : scanner :=
  if isByte c "."%char then goto stateDot ps
  else if isByte c "e"%char || isByte c "E"%char then goto stateE ps
  else doEndValue ps c.

Definition doESign (ps : list parseState) (c : ascii) : scanner :=
  if isDigit c then goto stateE0 ps else failed.

Definition expect (c : ascii) (k : ascii) (next : scanner) : scanner :=
  if isByte c k then next else failed.

(** One call of [s.step(s, c)]. *)
Definition scan (limit : option Z) (s : scanner) (c : ascii) : scanner :=
  let ps := scan_parseState s in
  match scan_step s with
  | stateBeginValue => doBeginValue limit ps c
  | stateBeginValueOrEmpty =>
      if isSpace c then goto stateBeginValueOrEmpty ps
      else if isByte c "]"%char then doEndValue ps c
      else doBeginValue limit ps c
  | stateBeginStringOrEmpty =>
      if isSpace c then goto stateBeginStringOrEmpty ps
      else if isByte c "}"%char then
        match ps with
        | _ :: rest => doEndValue (parseObjectValue :: rest) c
        | [] => failed
        end
      else doBeginString ps c
  | stateBeginString => doBeginString ps c
  | stateEndValue => doEndValue ps c
  | stateEndTop => doEndTop c
  | stateInString =>
      if isByte c quote then goto stateEndValue ps
      else if isByte c "\"%char then goto stateInStringEsc ps
      else if byte_of c <? 32 then failed
      else goto stateInString ps
  | stateInStringEsc =>
      if isByte c "b"%char || isByte c "f"%char || isByte c "n"%char || isByte c "r"%char || isByte c "t"%char
         || isByte c "\"%char || isByte c "/"%char || isByte c quote
      then goto stateInString ps
      else if isByte c "u"%char then goto stateInStringEscU ps
      else failed
  | stateInStringEscU => if isHex c then goto stateInStringEscU1 ps else failed
  | stateInStringEscU1 => if isHex c then goto stateInStringEscU12 ps else failed
  | stateInStringEscU12 => if isHex c then goto stateInStringEscU123 ps else failed
  | stateInStringEscU123 => if isHex c then goto stateInString ps else failed
  | stateNeg =>
      if isByte c "0"%char then goto state0 ps
      else if isDigit19 c then goto state1 ps
      else failed
  | state1 => if isDigit c then goto state1 ps else do0 ps c
  | state0 => do0 ps c
  | stateDot => if isDigit c then goto stateDot0 ps else failed
  | stateDot0 =>
      if isDigit c then goto stateDot0 ps
      else if isByte c "e"%char || isByte c "E"%char then goto stateE ps
      else doEndValue ps c
  | stateE => if isByte c "+"%char || isByte c "-"%char then goto stateESign ps else doESign ps c
  | stateESign => doESign ps c
  | stateE0 => if isDigit c then goto stateE0 ps else doEndValue ps c
  | stateT => expect c "r"%char (goto stateTr ps)
  | stateTr => expect c "u"%char (goto stateTru ps)
  | stateTru => expect c "e"%char (goto stateEndValue ps)
  | stateF => expect c "a"%char (goto stateFa ps)
  | stateFa => expect c "l"%char (goto stateFal ps)
  | stateFal => expect c "s"%char (goto stateFals ps)
  | stateFals => expect c "e"%char (goto stateEndValue ps)
  | stateN => expect c "u"%char (goto stateNu ps)
  | stateNu => expect c "l"%char (goto stateNul ps)
  | stateNul => expect c "l"%char (goto stateEndValue ps)
  | stateError => failed
  end.

Fixpoint scanAll (limit : option Z) (s : scanner) (data : string) : scanner :=
  match data with
  | EmptyString => s
  | String c rest => scanAll limit (scan limit s c) rest
  end.

(** Every byte is stepped, then [eof] steps one blank and asks whether the
    top-level value is complete. *)
Definition checkValidWith (limit : option Z) (data : string) : bool :=
  match scan_step (scan limit (scanAll limit (goto stateBeginValue []) data) " "%char) with
  | stateEndTop => true
  | _ => false
  end.

(** [checkValid]. *)
Definition checkValid (data : string) : bool :=
  checkValidWith (Some maxNestingDepth) data.

(** The text is a JSON document by the grammar, however deep. *)
Definition wellFormed (data : string) : bool := checkValidWith None data.

(** After [checkValid], the decoder walks the value.  Decoding into a
    [map[string]interface{}] can only go wrong in two ways: the top-level
    value is not an object (the literal [null] is accepted and leaves the
    map nil), or a number somewhere inside does not fit a [float64]
    ([strconv.ParseFloat] reports a range error). *)

Fixpoint firstByte (data : string) : option ascii :=
  match data with
  | EmptyString => None
  | String c rest => if isSpace c then firstByte rest else Some c
  end.

Inductive position := outside | inString | inStringEsc.

Definition numberByte (c : ascii) : bool :=
  isDigit c || isByte c "-"%char || isByte c "+"%char || isByte c "."%char
  || isByte c "e"%char || isByte c "E"%char.

Definition flush (cur : string) (found : list string) : list string :=
  match cur with
  | EmptyString => found
  | _ => cur :: found
  end.

(** The number literals of a valid document, in order: outside string
    literals, every maximal run of number bytes that starts with a digit
    or a minus sign. *)
Fixpoint numbers (at_ : position) (cur : string) (data : string) : list string :=
  match data with
  | EmptyString => flush cur []
  | String c rest =>
      match at_ with
      | inStringEsc => numbers inString cur rest
      | inString =>
          if isByte c "\"%char then numbers inStringEsc cur rest
          else if isByte c quote then numbers outside cur rest
          else numbers inString cur rest
      | outside =>
          if isByte c quote then flush cur (numbers inString EmptyString rest)
          else if isDigit c || isByte c "-"%char
                  || (negb (String.eqb cur EmptyString) && numberByte c)
          then numbers outside (cur +:+ String c EmptyString) rest
          else flush cur (numbers outside EmptyString rest)
      end
  end.

Fixpoint readDigits (s : string) (acc count : Z) : Z * Z * string :=
  match s with
  | EmptyString => (acc, count, s)
  | String c rest =>
      if isDigit c then readDigits rest (10 * acc + (byte_of c - 48)) (count + 1)
      else (acc, count, s)
  end.

Definition skipByte (k : ascii) (s : string) : string :=
  match s with
  | String c rest => if isByte c k then rest else s
  | EmptyString => s
  end.

Definition startsWith (k : ascii) (s : string) : bool :=
  match s with
  | String c _ => isByte c k
  | EmptyString => false
  end.

(** A number literal [-d.fEx] as [(m, k)] with magnitude [m * 10^k]. *)
Definition decimal (s : string) : Z * Z :=
  let '(m, _, s1) := readDigits (skipByte "-"%char s) 0 0 in
  let '(m, nfrac, s2) :=
    if startsWith "."%char s1 then readDigits (skipByte "."%char s1) m 0
    else (m, 0, s1) in
  let e :=
    if startsWith "e"%char s2 || startsWith "E"%char s2 then
      let s3 := skipByte "E"%char (skipByte "e"%char s2) in
      if startsWith "-"%char s3
      then - fst (fst (readDigits (skipByte "-"%char s3) 0 0))
      else fst (fst (readDigits (skipByte "+"%char s3) 0 0))
    else 0 in
  (m, e - nfrac).

(** [strconv.ParseFloat(s, 64)] succeeds unless the literal rounds to an
    infinity, which happens from the midpoint between the largest
    [float64] and [2^1024] on. *)
Definition fitsFloat64 (s : string) : bool :=
  let '(m, k) := decimal s in
  let limit := 2 ^ 1024 - 2 ^ 970 in
  if 0 <=? k then m * 10 ^ k <? limit else m <? limit * 10 ^ (- k).

Inductive UnmarshalError :=
| SyntaxError
| UnmarshalTypeError (Value : string).

(** [json.Unmarshal([]byte(data), &js)] for [var js map[string]interface{}]:
    [None] is Go's [nil] error. *)
Definition Unmarshal (data : string) : option UnmarshalError :=
  if negb (checkValid data) then Some SyntaxError
  else match firstByte data with
       | None => Some SyntaxError
       | Some c =>
           if isByte c "{"%char then
             match List.find (fun n => negb (fitsFloat64 n))
                             (numbers outside EmptyString data) with
             | Some n => Some (UnmarshalTypeError ("number " +:+ n))
             | None => None
             end
           else if isByte c "n"%char then None
           else if isByte c "["%char then Some (UnmarshalTypeError "array")
           else if isByte c quote then Some (UnmarshalTypeError "string")
           else if isByte c "t"%char || isByte c "f"%char then Some (UnmarshalTypeError "bool")
           else Some (UnmarshalTypeError "number")
       end.

End json.

(** ** Go's [error] values *)

Module errors.

(** [New] stands for [errors.New], [fmt.Errorf] and the errors of the
    operating system; [Wrap] for [errors.Wrapf] of [github.com/pkg/errors]. *)
Inductive error :=
| New (text : string)
| Wrap (cause : error) (message : string).

(** [err.Error()]. *)
Fixpoint Error (e : error) : string :=
  match e with
  | New text => text
  | Wrap cause message => message +:+ ": " +:+ Error cause
  end.

End errors.

Abbreviation error := errors.error.

(** ** The surroundings of the program *)

(** What a path names.  A regular file has its bytes and says whether this
    process may open it for reading.  A path is inaccessible when the
    operating system refuses to resolve it for this process, as it does
    below a directory that may not be searched: every call on it fails. *)
Inductive Node :=
| File (data : string) (readable : bool)
| Directory
| Inaccessible.

(** [exec.Cmd]: [Env] empty is Go's nil, the child inherits the
    environment of the process; [lookPathErr] is set by [exec.Command] when
    the executable is not found. *)
Record Cmd := {
  Path : string;
  Args : list string;
  Env : list string;
  lookPathErr : option error
}.

(** What the operating system answers when a command is started with its
    standard output piped. *)
Inductive Started :=
| PipeFailed (e : error)
| StartFailed (e : error)
| Running (stdout : string) (readErr : option error).

(** [corev1.Secret], its [Data] only. *)
Record Secret := { Data : gmap string string }.

(** [kubernetes.Interface], as far as it is used: what
    [CoreV1().Secrets(namespace).Get(name, ...)] answers. *)
Module kubernetes.

Record Interface := { SecretsGet : string -> string -> Secret * option errors.error }.

End kubernetes.

(** [libvirtxml.StorageVolume], the fields [createAndUpload] sets. *)
Record StorageVolume := {
  Volume_Name : string;
  Capacity_Unit : string;
  Capacity_Value : Z;
  Target_Format_Type : string
}.

(** The part of the surroundings that the program cannot change: answers
    are functions of the request and, for processes, of the commands issued
    before. *)
Record System := {
  TempDir : string;
  tempDirErr : option error;
  randomNames : list string;
  diskFull : bool;
  LookPath : string -> option string;
  pipeAndStart : list Cmd -> Cmd -> Started;
  combinedOutput : list Cmd -> Cmd -> string * option error;
  imageErr : string -> option error;
  poolUpload : string -> StorageVolume -> string -> string * option error
}.

(** The state the program acts on: the paths of the local filesystem (no two
    keys name the same file), the environment of the process, and the
    commands handed to the operating system so far, oldest first. *)
Record World := {
  sys : System;
  files : gmap string Node;
  environ : gmap string string;
  issued : list Cmd
}.

Definition with_files (w : World) (fs : gmap string Node) : World :=
  {| sys := sys w; files := fs; environ := environ w; issued := issued w |}.

Definition with_environ (w : World) (env : gmap string string) : World :=
  {| sys := sys w; files := files w; environ := env; issued := issued w |}.

Definition with_issued (w : World) (cmds : list Cmd) : World :=
  {| sys := sys w; files := files w; environ := environ w; issued := cmds |}.

(** ** Statements of a Go function body

    A statement acts on the world and either goes on with a value, or
    returns from the enclosing function, or panics. *)

Inductive Flow (R A : Type) :=
| Next (a : A)
| Return (r : R)
| Panic (reason : string).

Arguments Next {R A} a.
Arguments Return {R A} r.
Arguments Panic {R A} reason.

Definition Go (R A : Type) : Type := World -> Flow R A * World.

Definition ret {R A} (a : A) : Go R A := fun w => (Next a, w).

Definition return_ {R A} (r : R) : Go R A := fun w => (Return r, w).

Definition panic {R A} (reason : string) : Go R A := fun w => (Panic reason, w).

Definition bind {R A B} (m : Go R A) (k : A -> Go R B) : Go R B :=
  fun w =>
    match m w with
    | (Next a, w') => k a w'
    | (Return r, w') => (Return r, w')
    | (Panic reason, w') => (Panic reason, w')
    end.

Declare Scope go_scope.
Delimit Scope go_scope with go.

Notation "'let*' p ':=' m 'in' k" := (bind m (fun p => k))
  (at level 10, p pattern, m at level 100, k at level 200) : go_scope.
Notation "m ;; k" := (bind m (fun _ => k))
  (at level 100, right associativity) : go_scope.

Local Open Scope go_scope.

(** [if c { ... }] whose block leaves the function. *)
Definition when {R} (c : bool) (block : Go R unit) : Go R unit :=
  if c then block else ret tt.

(** A called function either returns or panics. *)
Inductive Result (R : Type) :=
| Returns (r : R)
| Panics (reason : string).

Arguments Returns {R} r.
Arguments Panics {R} reason.

Definition Fn (R : Type) : Type := World -> Result R * World.

(** The body of a function with results [R]: control cannot fall off its
    end. *)
Definition func {R} (body : Go R False) : Fn R :=
  fun w =>
    match body w with
    | (Next a, _) => match a with end
    | (Return r, w') => (Returns r, w')
    | (Panic reason, w') => (Panics reason, w')
    end.

Definition call {R A} (f : Fn A) : Go R A :=
  fun w =>
    match f w with
    | (Returns a, w') => (Next a, w')
    | (Panics reason, w') => (Panic reason, w')
    end.

(** [defer d] placed before [body]: [d] runs when the function leaves
    [body], whichever way, and its own outcome is dropped. *)
Definition defer {R A} (d : Go unit unit) (body : Go R A) : Go R A :=
  fun w =>
    let '(flow, w1) := body w in
    (flow, snd (d w1)).

(** [a[i]] and [*p]. *)
Definition index {R A} (a : list A) (i : nat) : Go R A :=
  match a !! i with
  | Some x => ret x
  | None => panic "runtime error: index out of range"
  end.

Definition deref {R A} (p : option A) : Go R A :=
  match p with
  | Some x => ret x
  | None => panic "runtime error: invalid memory address or nil pointer dereference"
  end.

Definition isErr (err : option error) : bool :=
  match err with
  | Some _ => true
  | None => false
  end.

Definition len {A} (a : list A) : Z := Z.of_nat (length a).

(** ** The packages the code calls, acting on the world *)

Module os.

Import errors.

(** [os.Stat(name)], its error only. *)
Definition Stat {R} (name : string) : Go R (option error) :=
  fun w =>
    match files w !! name with
    | Some Inaccessible =>
        (Next (Some (New ("stat " +:+ name +:+ ": permission denied"))), w)
    | Some _ => (Next None, w)
    | None => (Next (Some (New ("stat " +:+ name +:+ ": no such file or directory"))), w)
    end.

(** [os.Open(name)]: the handle is the path. *)
Definition Open {R} (name : string) : Go R (string * option error) :=
  fun w =>
    match files w !! name with
    | Some (File _ true) | Some Directory => (Next (name, None), w)
    | Some (File _ false) | Some Inaccessible =>
        (Next (EmptyString, Some (New ("open " +:+ name +:+ ": permission denied"))), w)
    | None =>
        (Next (EmptyString, Some (New ("open " +:+ name +:+ ": no such file or directory"))), w)
    end.

(** [os.Remove(name)]. *)
Definition Remove {R} (name : string) : Go R (option error) :=
  fun w =>
    match files w !! name with
    | Some Inaccessible =>
        (Next (Some (New ("remove " +:+ name +:+ ": permission denied"))), w)
    | Some _ => (Next None, with_files w (delete name (files w)))
    | None => (Next (Some (New ("remove " +:+ name +:+ ": no such file or directory"))), w)
    end.

(** [f.WriteString(s)] on a file opened for writing at its end. *)
Definition WriteString {R} (f : string) (s : string) : Go R (option error) :=
  fun w =>
    match files w !! f with
    | Some (File data readable) =>
        if diskFull (sys w) && negb (String.eqb s EmptyString)
        then (Next (Some (New ("write " +:+ f +:+ ": no space left on device"))), w)
        else (Next None, with_files w (<[f := File (data +:+ s) readable]> (files w)))
    | _ => (Next (Some (New ("write " +:+ f +:+ ": bad file descriptor"))), w)
    end.

(** [os.Setenv(key, value)]; the error is the only effect of a refused key
    or value. *)
Definition validEnv (key value : string) : bool :=
  negb (String.eqb key EmptyString)
  && forallb (fun c => negb (Ascii.eqb c "="%char) && negb (Ascii.eqb c "000"%char))
             (list_ascii_of_string key)
  && forallb (fun c => negb (Ascii.eqb c "000"%char)) (list_ascii_of_string value).

Definition Setenv {R} (key value : string) : Go R (option error) :=
  fun w =>
    if validEnv key value
    then (Next None, with_environ w (<[key := value]> (environ w)))
    else (Next (Some (New "setenv: invalid argument")), w).

End os.

Module ioutil.

Import errors.

(** The loop of [TempFile] over the names it draws: a name that is taken
    ([os.IsExist]) makes it draw again, any other error of the open ends
    it, and so does running out of tries. *)
Fixpoint firstFree (fs : gmap string Node) (dir prefix : string)
    (candidates : list string) : string * option error :=
  match candidates with
  | [] => (EmptyString, Some (New ("open " +:+ dir +:+ "/" +:+ prefix +:+ ": file exists")))
  | r :: rest =>
      let name := dir +:+ "/" +:+ prefix +:+ r in
      match fs !! name with
      | None => (name, None)
      | Some Inaccessible =>
          (EmptyString, Some (New ("open " +:+ name +:+ ": permission denied")))
      | Some _ => firstFree fs dir prefix rest
      end
  end.

(** [ioutil.TempFile("", prefix)], for a prefix without [*]: a new, empty
    file in the default directory for temporary files, under the first
    random name that is not taken.  The handle is the path, which is also
    [f.Name()]; closing a handle has no effect that is modelled. *)
Definition TempFile {R} (prefix : string) : Go R (string * option error) :=
  fun w =>
    match tempDirErr (sys w) with
    | Some e => (Next (EmptyString, Some e), w)
    | None =>
        match firstFree (files w) (TempDir (sys w)) prefix (randomNames (sys w)) with
        | (name, None) =>
            (Next (name, None), with_files w (<[name := File EmptyString true]> (files w)))
        | (_, Some e) => (Next (EmptyString, Some e), w)
        end
    end.

End ioutil.

Module io.

Import errors.

(** [io.Copy(dst, src)], its error only: everything [src] holds is read
    and written at the end of [dst]. *)
Definition Copy {R} (dst src : string) : Go R (option error) :=
  fun w =>
    match files w !! src with
    | Some (File data _) => os.WriteString dst data w
    | Some Directory => (Next (Some (New ("read " +:+ src +:+ ": is a directory"))), w)
    | Some Inaccessible | None =>
        (Next (Some (New ("read " +:+ src +:+ ": file already closed"))), w)
    end.

End io.

Module exec.

Import errors.

(** [exec.Command(name, arg...)] for a name without path separators. *)
Definition Command {R} (name : string) (arg : list string) : Go R Cmd :=
  fun w =>
    match LookPath (sys w) name with
    | Some path =>
        (Next {| Path := path; Args := name :: arg; Env := []; lookPathErr := None |}, w)
    | None =>
        (Next {| Path := name; Args := name :: arg; Env := [];
                 lookPathErr :=
                   Some (New ("exec: " +:+ String json.quote name
                              +:+ String json.quote ": executable file not found in $PATH")) |},
         w)
    end.

(** What running [cmd] to its end gives, after the commands [before]. *)
Definition answer (s : System) (before : list Cmd) (cmd : Cmd) : string * option error :=
  match lookPathErr cmd with
  | Some e => (EmptyString, Some e)
  | None => combinedOutput s before cmd
  end.

(** [cmd.CombinedOutput()]: a command whose executable was not found is
    not started, the error of the look-up is returned at once. *)
Definition CombinedOutput {R} (cmd : Cmd) : Go R (string * option error) :=
  fun w =>
    match lookPathErr cmd with
    | Some e => (Next (EmptyString, Some e), w)
    | None => (Next (combinedOutput (sys w) (issued w) cmd), with_issued w (issued w ++ [cmd]))
    end.

(** The read end of a pipe: what will be read from it, and the error the
    read ends with. *)
Definition Stream : Type := string * option error.

(** [cmd.StdoutPipe()]. *)
Definition StdoutPipe {R} (cmd : Cmd) : Go R (Stream * option error) :=
  fun w =>
    match pipeAndStart (sys w) (issued w) cmd with
    | PipeFailed e => (Next ((EmptyString, None), Some e), w)
    | StartFailed _ => (Next ((EmptyString, None), None), w)
    | Running stdout readErr => (Next ((stdout, readErr), None), w)
    end.

(** [cmd.Start()]: a command whose executable was not found is not
    started, the error of the look-up is returned at once. *)
Definition Start {R} (cmd : Cmd) : Go R (option error) :=
  fun w =>
    match lookPathErr cmd with
    | Some e => (Next (Some e), w)
    | None =>
        let w' := with_issued w (issued w ++ [cmd]) in
        match pipeAndStart (sys w) (issued w) cmd with
        | StartFailed e => (Next (Some e), w')
        | _ => (Next None, w')
        end
    end.

End exec.

Module bytes.

(** [buf.ReadFrom(stream)] into an empty buffer, then [buf.String()]. *)
Definition ReadFrom {R} (stream : exec.Stream) : Go R (string * option error) :=
  ret stream.

End bytes.

(** ** [libvirtxml], the declarations the code uses

    Pointers that may be nil are options. *)

Module libvirtxml.

Record DomainDiskSourceFile := { DomainDiskSourceFile_File : string }.

Record DomainDiskSource := { DomainDiskSource_File : option DomainDiskSourceFile }.

Record DomainDisk := { Source : option DomainDiskSource }.

Record DomainDeviceList := { Disks : list DomainDisk }.

Record DomainQEMUCommandlineArg := { Value : string }.

Record DomainQEMUCommandlineEnv := { Env_Name : string; Env_Value : string }.

Record DomainQEMUCommandline := {
  QEMU_Args : list DomainQEMUCommandlineArg;
  QEMU_Envs : list DomainQEMUCommandlineEnv
}.

Record Domain := {
  Devices : option DomainDeviceList;
  QEMUCommandline : option DomainQEMUCommandline
}.

End libvirtxml.

(** ** [pkg/cloud/libvirt/client/ignition.go]

    The [glog] calls are left out: they write to the log and nothing reads
    it back. *)

Module client.

Import errors strings libvirtxml.

Record defIgnition := {
  Name : string;
  PoolName : string;
  Content : string
}.

(** [libvirtClient] and [providerconfigv1.Ignition], the fields read here. *)
Record libvirtClient := { poolName : string }.

Record Ignition := { UserDataSecret : string }.

Definition newIgnitionDef : defIgnition :=
  {| Name := EmptyString; PoolName := EmptyString; Content := EmptyString |}.

(** [%v] and [%s] of an error. *)
Definition show (err : option error) : string :=
  match err with
  | Some e => Error e
  | None => "<nil>"
  end.

(** *** Code of the repository outside the embedded file *)

(** Modelled from the spec: [newDefVolume], which is declared in another
    file of the package; a volume descriptor with its logical name. *)
Definition newDefVolume (name : string) : StorageVolume :=
  {| Volume_Name := name; Capacity_Unit := EmptyString; Capacity_Value := 0;
     Target_Format_Type := EmptyString |}.

(** Modelled from the spec: [newImage], which is declared in another file
    of the package; the image of a local file is that file, and whether
    the source is accepted is for the surroundings to say. *)
Definition newImage (source : string) : Fn (string * option error) :=
  fun w =>
    match imageErr (sys w) source with
    | Some e => (Returns (EmptyString, Some e), w)
    | None => (Returns (source, None), w)
    end.

(** Modelled from the spec: [image.size], which is declared in another
    file of the package; the exact byte length of the file, or the error
    of the size probe. *)
Definition size (img : string) : Fn (Z * option error) :=
  fun w =>
    match files w !! img with
    | Some (File data true) => (Returns (Z.of_nat (String.length data), None), w)
    | _ => (Returns (0, Some (New ("open " +:+ img +:+ ": cannot read"))), w)
    end.

(** Modelled from the spec: [uploadVolume], which is declared in another
    file of the package; the storage pool creates a volume from the local
    file and answers with its identifier or an error. *)
Definition uploadVolume (pool : string) (c : libvirtClient)
    (volumeDef : StorageVolume) (img : string) : Fn (string * option error) :=
  fun w =>
    match files w !! img with
    | Some (File data true) => (Returns (poolUpload (sys w) pool volumeDef data), w)
    | _ => (Returns (EmptyString, Some (New ("open " +:+ img +:+ ": cannot read"))), w)
    end.

(** *** The embedded file *)

(** [func (ign *defIgnition) createFile() (string, error)] *)
Definition createFile (ign : defIgnition) : Fn (string * option error) :=
  func (
    let* (tempFile, err) := ioutil.TempFile (Name ign) in
    when (isErr err)
      (return_ (EmptyString,
                Some (New ("Cannot create tmp file for Ignition: " +:+ show err)))) ;;
    let* statErr := os.Stat (Content ign) in
    let* file :=
      (if isErr statErr then
         when (match json.Unmarshal (Content ign) with Some _ => true | None => false end)
           (return_ (EmptyString,
                     Some (New ("coreos_ignition 'content' is neither a file "
                                +:+ "nor a valid json object " +:+ Content ign)))) ;;
         ret false
       else ret true) in
    (if negb file then
       let* err := os.WriteString tempFile (Content ign) in
       when (isErr err)
         (return_ (EmptyString,
                   Some (New ("Cannot write Ignition object to temporary "
                              +:+ "ignition file"))))
     else
       let* (ignFile, err) := os.Open (Content ign) in
       when (isErr err)
         (return_ (EmptyString,
                   Some (New ("Error opening supplied Ignition file " +:+ Content ign)))) ;;
       let* err := io.Copy tempFile ignFile in
       when (isErr err)
         (return_ (EmptyString,
                   Some (New ("Error copying supplied Igition file to temporary file: "
                              +:+ Content ign))))) ;;
    return_ (tempFile, None)).

(** [func (ign *defIgnition) createAndUpload(client *libvirtClient) (string, error)] *)
Definition createAndUpload (ign : defIgnition) (c : libvirtClient)
    : Fn (string * option error) :=
  func (
    let volumeDef := newDefVolume (Name ign) in
    let* (ignFile, err) := call (createFile ign) in
    when (isErr err) (return_ (EmptyString, err)) ;;
    defer (let* _ := os.Remove ignFile in ret tt) (
      let* (img, err) := call (newImage ignFile) in
      when (isErr err) (return_ (EmptyString, err)) ;;
      let* (sz, err) := call (size img) in
      when (isErr err) (return_ (EmptyString, err)) ;;
      let volumeDef :=
        {| Volume_Name := Volume_Name volumeDef;
           Capacity_Unit := "B";
           Capacity_Value := sz;
           Target_Format_Type := "raw" |} in
      let* r := call (uploadVolume (PoolName ign) c volumeDef img) in
      return_ r)).

(** [func genCmd(useRoot bool, env []string, args ...string) *exec.Cmd] *)
Definition genCmd (useRoot : bool) (env : list string) (args : list string) : Fn Cmd :=
  func (
    let executable := "guestfish" in
    let newArgs := [] in
    let '(executable, newArgs) :=
      if useRoot then ("sudo", (newArgs ++ ["--preserve-env"; executable]) ++ args)
      else (executable, args) in
    let* cmd := exec.Command executable newArgs in
    return_ (if 0 <? len env
             then {| Path := Path cmd; Args := Args cmd; Env := env;
                     lookPathErr := lookPathErr cmd |}
             else cmd)).

Definition commandLine (cmd : Cmd) : string :=
  Path cmd +:+ " " +:+ Join (Args cmd) " ".

(** [func execCmd(useRoot bool, env []string, args ...string) (string, error)] *)
Definition execCmd (useRoot : bool) (env : list string) (args : list string)
    : Fn (string * option error) :=
  func (
    let* cmd := call (genCmd useRoot env args) in
    let* (cmdOut, err) := exec.CombinedOutput cmd in
    return_ (cmdOut,
             match err with
             | Some e => Some (Wrap e ("error running command '" +:+ commandLine cmd +:+ "'"))
             | None => None
             end)).

(** [func readOutput(stream io.ReadCloser) (string, error)] *)
Definition readOutput (stream : exec.Stream) : Fn (string * option error) :=
  func (
    let* (buf, err) := bytes.ReadFrom stream in
    when (isErr err) (return_ (EmptyString, err)) ;;
    return_ (buf, None)).

(** [func startCmd(useRoot bool, env []string, args ...string) (string, error)] *)
Definition startCmd (useRoot : bool) (env : list string) (args : list string)
    : Fn (string * option error) :=
  func (
    let* cmd := call (genCmd useRoot env args) in
    let* (stdout, err) := exec.StdoutPipe cmd in
    match err with
    | Some e =>
        return_ (EmptyString,
                 Some (Wrap e ("error getting stdout pipe for command '"
                               +:+ commandLine cmd +:+ "'")))
    | None =>
        let* err := exec.Start cmd in
        match err with
        | Some e =>
            return_ (EmptyString,
                     Some (Wrap e ("error starting command '" +:+ commandLine cmd +:+ "'")))
        | None =>
            let* (outMsg, err) := call (readOutput stdout) in
            return_ (outMsg, err)
        end
    end).

(** [domainDef.Devices.Disks[0].Source.File.File] *)
Definition firstDiskFile {R} (domainDef : Domain) : Go R string :=
  let* devices := deref (Devices domainDef) in
  let* disk := index (Disks devices) 0 in
  let* source := deref (Source disk) in
  let* file := deref (DomainDiskSource_File source) in
  ret (DomainDiskSourceFile_File file).

(** [func injectIgnitionByGuestfish(domainDef *libvirtxml.Domain, ignitionFile string) error] *)
Definition injectIgnitionByGuestfish (domainDef : Domain) (ignitionFile : string)
    : Fn (option error) :=
  func (
    let* diskFile := firstDiskFile domainDef in
    let args := ["--listen"; "-a"; diskFile] in
    let* (output, err) := call (startCmd true [] args) in
    when (isErr err) (return_ err) ;;

    let strArray := Split output ";"%char in
    when (negb (len strArray =? 2))
      (return_ (Some (New ("Invalid output when starting guestfish: " +:+ output)))) ;;
    let* strArray_0 := index strArray 0 in
    let strArray1 := Split strArray_0 "="%char in
    when (negb (len strArray1 =? 2))
      (return_ (Some (New ("failed to get the guestfish PID from " +:+ output)))) ;;
    let env := [strArray_0] in

    let args := ["--remote"; "--"; "run"] in
    let* (_, err) := call (execCmd true env args) in
    when (isErr err) (return_ err) ;;

    let args := ["--remote"; "--"; "findfs-label"; "boot"] in
    let* (output, err) := call (execCmd true env args) in
    when (isErr err) (return_ err) ;;

    let bootDisk := TrimSpace output in
    when (Z.of_nat (String.length bootDisk) =? 0)
      (return_ (Some (New "failed to get the boot filesystem"))) ;;

    let args := ["--remote"; "--"; "mount"; bootDisk; "/"] in
    let* (_, err) := call (execCmd true env args) in
    when (isErr err) (return_ err) ;;

    let args := ["--remote"; "--"; "upload"; ignitionFile; "/ignition/config.ign"] in
    let* (_, err) := call (execCmd true env args) in
    when (isErr err) (return_ err) ;;

    let args := ["--remote"; "--"; "umount-all"] in
    let* (_, err) := call (execCmd true env args) in
    when (isErr err) (return_ err) ;;

    let args := ["--remote"; "--"; "exit"] in
    let* (_, err) := call (execCmd true env args) in
    when (isErr err) (return_ err) ;;

    return_ None).

(** [func setIgnition(domainDef *libvirtxml.Domain, client *libvirtClient,
    ignition *providerconfigv1.Ignition, kubeClient kubernetes.Interface,
    machineNamespace, volumeName string) error]: the domain behind the
    pointer is returned next to the error. *)
Definition setIgnition (domainDef : Domain) (c : libvirtClient) (ignition : Ignition)
    (kubeClient : kubernetes.Interface) (machineNamespace volumeName : string)
    : Fn (Domain * option error) :=
  func (
    let ignitionDef := newIgnitionDef in
    when (String.eqb (UserDataSecret ignition) EmptyString)
      (return_ ((domainDef, Some (New "ignition.userDataSecret not set")))) ;;
    let* (secret, err) :=
      ret (kubernetes.SecretsGet kubeClient machineNamespace (UserDataSecret ignition)) in
    when (isErr err)
      (return_ ((domainDef, Some (New ("can not retrieve user data secret '" +:+ machineNamespace
                                 +:+ "/" +:+ UserDataSecret ignition
                                 +:+ "' when constructing cloud init volume: "
                                 +:+ show err))))) ;;
    let* userDataSecret :=
      match Data secret !! "userData" with
      | Some userData => ret userData
      | None =>
          return_ ((domainDef, Some (New ("can not retrieve user data secret '" +:+ machineNamespace
                                    +:+ "/" +:+ UserDataSecret ignition
                                    +:+ "' when constructing cloud init volume: "
                                    +:+ "key 'userData' not found in the secret"))))
      end in
    let ignitionDef :=
      {| Name := volumeName; PoolName := poolName c; Content := userDataSecret |} in
    let* (ignitionVolumeName, err) := call (createAndUpload ignitionDef c) in
    when (isErr err) (return_ ((domainDef, err))) ;;

    let domainDef :=
      {| Devices := Devices domainDef;
         QEMUCommandline :=
           Some {| QEMU_Args :=
                     [ {| Value := "-fw_cfg" |};
                       {| Value := "name=opt/com.coreos/config,file="
                                   +:+ ignitionVolumeName |} ];
                   QEMU_Envs := [] |} |} in
    return_ (domainDef, None)).

(** [func setIgnitionForS390X(domainDef *libvirtxml.Domain, ...) error] *)
Definition setIgnitionForS390X (domainDef : Domain) (c : libvirtClient)
    (ignition : Ignition) (kubeClient : kubernetes.Interface)
    (machineNamespace volumeName : string) : Fn (option error) :=
  func (
    let ignitionDef := newIgnitionDef in
    when (String.eqb (UserDataSecret ignition) EmptyString)
      (return_ ((Some (New "ignition.userDataSecret not set")))) ;;
    let* (secret, err) :=
      ret (kubernetes.SecretsGet kubeClient machineNamespace (UserDataSecret ignition)) in
    when (isErr err)
      (return_ ((Some (New ("can not retrieve user data secret '" +:+ machineNamespace
                                 +:+ "/" +:+ UserDataSecret ignition
                                 +:+ "' when constructing cloud init volume: "
                                 +:+ show err))))) ;;
    let* userDataSecret :=
      match Data secret !! "userData" with
      | Some userData => ret userData
      | None =>
          return_ ((Some (New ("can not retrieve user data secret '" +:+ machineNamespace
                                    +:+ "/" +:+ UserDataSecret ignition
                                    +:+ "' when constructing cloud init volume: "
                                    +:+ "key 'userData' not found in the secret"))))
      end in
    let ignitionDef :=
      {| Name := volumeName; PoolName := poolName c; Content := userDataSecret |} in
    let* (ignitionVolumeName, err) := call (createAndUpload ignitionDef c) in
    when (isErr err) (return_ ((err))) ;;

    let* err := call (injectIgnitionByGuestfish domainDef ignitionVolumeName) in
    return_ err).

End client.

(** ** The older revision of the file

    It differs from the current one in the guestfish session: commands are
    run without [sudo] and without an environment of their own, the handle
    is exported with [os.Setenv], and the boot filesystem is looked for in
    the output of [list-filesystems]. *)

Module legacy.

Import errors strings libvirtxml.

Definition commandLine (executable : string) (args : list string) : string :=
  executable +:+ " " +:+ Join args " ".

(** [func execCmd(args ...string) (string, error)] *)
Definition execCmd (args : list string) : Fn (string * option error) :=
  func (
    let executable := "guestfish" in
    let* cmd := exec.Command executable args in
    let* (cmdOut, err) := exec.CombinedOutput cmd in
    return_ (cmdOut,
             match err with
             | Some e =>
                 Some (Wrap e ("error running command '" +:+ commandLine executable args
                               +:+ "'"))
             | None => None
             end)).

(** [func startCmd(args ...string) (string, error)] *)
Definition startCmd (args : list string) : Fn (string * option error) :=
  func (
    let executable := "guestfish" in
    let* cmd := exec.Command executable args in
    let* (stdout, err) := exec.StdoutPipe cmd in
    match err with
    | Some e =>
        return_ (EmptyString,
                 Some (Wrap e ("error getting stdout pipe for command '"
                               +:+ commandLine executable args +:+ "'")))
    | None =>
        let* err := exec.Start cmd in
        match err with
        | Some e =>
            return_ (EmptyString,
                     Some (Wrap e ("error starting command '"
                                   +:+ commandLine executable args +:+ "'")))
        | None =>
            let* (outMsg, err) := call (client.readOutput stdout) in
            return_ (outMsg, err)
        end
    end).

(** The lines [buf.ReadString('\n')] yields before it reports [io.EOF]:
    each ends with the delimiter, and what follows the last delimiter is
    read together with the end of the buffer. *)
Fixpoint ReadStrings (data : string) (cur : string) : list string :=
  match data with
  | EmptyString => []
  | String c rest =>
      if Ascii.eqb c "010"%char
      then (cur +:+ String c EmptyString) :: ReadStrings rest EmptyString
      else ReadStrings rest (cur +:+ String c EmptyString)
  end.

(** The loop over the lines; it ends with [bootDisk]. *)
Fixpoint findBootDisk (lines : list string) : Go (option error) string :=
  match lines with
  | [] => ret EmptyString
  | line :: rest =>
      let diskAndFormat := Split line ":"%char in
      when (negb (len diskAndFormat =? 2))
        (return_ (Some (New ("invalid filesystem format: " +:+ line)))) ;;
      let* format := index diskAndFormat 1 in
      if String.eqb format "ext4" then index diskAndFormat 0
      else findBootDisk rest
  end.

(** [func injectIgnitionByGuestfish(domainDef *libvirtxml.Domain, ignitionFile string) error] *)
Definition injectIgnitionByGuestfish (domainDef : Domain) (ignitionFile : string)
    : Fn (option error) :=
  func (
    let* diskFile := client.firstDiskFile domainDef in
    let args := ["--listen"; "-a"; diskFile] in
    let* (output, err) := call (startCmd args) in
    when (isErr err) (return_ err) ;;

    let strArray := Split output ";"%char in
    when (negb (len strArray =? 2))
      (return_ (Some (New ("Invalid output when starting guestfish: " +:+ output)))) ;;
    let* strArray_0 := index strArray 0 in
    let strArray1 := Split strArray_0 "="%char in
    when (negb (len strArray =? 2))
      (return_ (Some (New ("failed to get the guestfish PID from " +:+ output)))) ;;
    let* key := index strArray1 0 in
    let* value := index strArray1 1 in
    let* _ := os.Setenv key value in

    let args := ["--remote"; "--"; "run"] in
    let* (_, err) := call (execCmd args) in
    when (isErr err) (return_ err) ;;

    let args := ["--remote"; "--"; "list-filesystems"] in
    let* (output, err) := call (execCmd args) in
    when (isErr err) (return_ err) ;;

    let* bootDisk := findBootDisk (ReadStrings output EmptyString) in

    let args := ["--remote"; "--"; "mount"; bootDisk; "/"] in
    let* (_, err) := call (execCmd args) in
    when (isErr err) (return_ err) ;;

    let args := ["--remote"; "--"; "upload"; ignitionFile; "/ignition/config.ign"] in
    let* (_, err) := call (execCmd args) in
    when (isErr err) (return_ err) ;;

    let args := ["--remote"; "--"; "umount-all"] in
    let* (_, err) := call (execCmd args) in
    when (isErr err) (return_ err) ;;

    let args := ["--remote"; "--"; "exit"] in
    let* (_, err) := call (execCmd args) in
    when (isErr err) (return_ err) ;;

    return_ None).

End legacy.

(** * The vocabulary of the statements *)

Import errors strings libvirtxml client.

(** ** Commands *)

(** The command [genCmd] builds. *)
Definition command (s : System) (useRoot : bool) (env args : list string) : Cmd :=
  let name := if useRoot then "sudo" else "guestfish" in
  let arg := if useRoot then "--preserve-env" :: "guestfish" :: args else args in
  {| Path := match LookPath s name with Some path => path | None => name end;
     Args := name :: arg;
     Env := env;
     lookPathErr :=
       match LookPath s name with
       | Some _ => None
       | None =>
           Some (New ("exec: " +:+ String json.quote name
                      +:+ String json.quote ": executable file not found in $PATH"))
       end |}.

(** The error [execCmd] returns for the error of the command. *)
Definition wrapRun (cmd : Cmd) (err : option error) : option error :=
  match err with
  | Some e => Some (Wrap e ("error running command '" +:+ commandLine cmd +:+ "'"))
  | None => None
  end.

(** What [startCmd] returns and whether the command reached the operating
    system: it does not when the pipe cannot be made or the executable was
    not found. *)
Definition started (s : System) (before : list Cmd) (cmd : Cmd)
    : (string * option error) * list Cmd :=
  match pipeAndStart s before cmd with
  | PipeFailed e =>
      ((EmptyString,
        Some (Wrap e ("error getting stdout pipe for command '" +:+ commandLine cmd +:+ "'"))),
       [])
  | StartFailed e =>
      match lookPathErr cmd with
      | Some e' =>
          ((EmptyString,
            Some (Wrap e' ("error starting command '" +:+ commandLine cmd +:+ "'"))),
           [])
      | None =>
          ((EmptyString,
            Some (Wrap e ("error starting command '" +:+ commandLine cmd +:+ "'"))),
           [cmd])
      end
  | Running stdout readErr =>
      match lookPathErr cmd with
      | Some e' =>
          ((EmptyString,
            Some (Wrap e' ("error starting command '" +:+ commandLine cmd +:+ "'"))),
           [])
      | None =>
          (match readErr with
           | Some e => (EmptyString, Some e)
           | None => (stdout, None)
           end, [cmd])
      end
  end.

(** The same for the older revision, which runs [guestfish] itself and
    names it in its errors. *)
Definition legacyStarted (s : System) (before : list Cmd) (args : list string)
    : (string * option error) * list Cmd :=
  let cmd := command s false [] args in
  let line := legacy.commandLine "guestfish" args in
  match pipeAndStart s before cmd with
  | PipeFailed e =>
      ((EmptyString, Some (Wrap e ("error getting stdout pipe for command '" +:+ line +:+ "'"))),
       [])
  | StartFailed e =>
      match lookPathErr cmd with
      | Some e' =>
          ((EmptyString, Some (Wrap e' ("error starting command '" +:+ line +:+ "'"))), [])
      | None =>
          ((EmptyString, Some (Wrap e ("error starting command '" +:+ line +:+ "'"))), [cmd])
      end
  | Running stdout readErr =>
      match lookPathErr cmd with
      | Some e' =>
          ((EmptyString, Some (Wrap e' ("error starting command '" +:+ line +:+ "'"))), [])
      | None =>
          (match readErr with
           | Some e => (EmptyString, Some e)
           | None => (stdout, None)
           end, [cmd])
      end
  end.

(** ** The guestfish session *)

(** The backing file of the first disk, when the domain has one. *)
Definition diskFile (dom : Domain) : option string :=
  match Devices dom with
  | Some {| Disks := {| Source := Some {| DomainDiskSource_File := Some file |} |} :: _ |} =>
      Some (DomainDiskSourceFile_File file)
  | _ => None
  end.

(** The seven commands of a session, in their order: listen, run, filesystem
    lookup, mount, upload, umount-all, exit. *)
Definition listenCmd (s : System) (diskFile : string) : Cmd :=
  command s true [] ["--listen"; "-a"; diskFile].

Definition runCmd (s : System) (handle : string) : Cmd :=
  command s true [handle] ["--remote"; "--"; "run"].

Definition findfsCmd (s : System) (handle : string) : Cmd :=
  command s true [handle] ["--remote"; "--"; "findfs-label"; "boot"].

Definition mountCmd (s : System) (handle device : string) : Cmd :=
  command s true [handle] ["--remote"; "--"; "mount"; device; "/"].

Definition uploadCmd (s : System) (handle ignitionFile : string) : Cmd :=
  command s true [handle] ["--remote"; "--"; "upload"; ignitionFile; "/ignition/config.ign"].

Definition umountCmd (s : System) (handle : string) : Cmd :=
  command s true [handle] ["--remote"; "--"; "umount-all"].

Definition exitCmd (s : System) (handle : string) : Cmd :=
  command s true [handle] ["--remote"; "--"; "exit"].

Definition session (s : System) (diskFile handle bootDisk ignitionFile : string) : list Cmd :=
  [ listenCmd s diskFile; runCmd s handle; findfsCmd s handle; mountCmd s handle bootDisk;
    uploadCmd s handle ignitionFile; umountCmd s handle; exitCmd s handle ].

(** The first segment of the listen output. *)
Definition firstSegment (output : string) : string :=
  hd EmptyString (Split output ";"%char).

(** The handle the session captures: the first segment of what the listen
    step prints. *)
Definition capturedHandle (dom : Domain) (w : World) : string :=
  match diskFile dom with
  | Some d => firstSegment (fst (fst (started (sys w) (issued w) (listenCmd (sys w) d))))
  | None => EmptyString
  end.

(** The device the session mounts: what the filesystem lookup answers after
    listen and [run], trimmed of white space. *)
Definition bootDevice (dom : Domain) (w : World) : string :=
  match diskFile dom with
  | Some d =>
      let s := sys w in
      let handle := capturedHandle dom w in
      TrimSpace (fst (exec.answer s (issued w ++ [listenCmd s d; runCmd s handle])
                        (findfsCmd s handle)))
  | None => EmptyString
  end.

(** The session has captured [handle] and its filesystem lookup has
    answered [out]: the listen step printed two segments of which the first
    is [handle], a key and a value, and [run] went well. *)
Definition lookedUp (s : System) (before : list Cmd) (diskFile handle out : string) : Prop :=
  exists output rest o,
    started s before (listenCmd s diskFile) = ((output, None), [listenCmd s diskFile])
    /\ Split output ";"%char = [handle; rest]
    /\ length (Split handle "="%char) = 2%nat
    /\ exec.answer s (before ++ [listenCmd s diskFile]) (runCmd s handle) = (o, None)
    /\ exec.answer s (before ++ [listenCmd s diskFile; runCmd s handle]) (findfsCmd s handle)
       = (out, None).

(** ** The resolver *)

Definition InvalidConfiguration (content : string) : error :=
  New ("coreos_ignition 'content' is neither a file nor a valid json object " +:+ content).

Definition succeeds {A} (r : Result (A * option error)) : Prop :=
  exists a, r = Returns (a, None).

Definition succeeded {A} (r : Result (A * option error)) : bool :=
  match r with
  | Returns (_, None) => true
  | _ => false
  end.

(** [P] is the path of an existing file this process may read. *)
Definition readableFile (fs : gmap string Node) (P : string) : Prop :=
  exists data, fs !! P = Some (File data true).

(** [P] is a well-formed JSON document whose value is an object. *)
Definition jsonObject (P : string) : bool :=
  json.wellFormed P
  && match json.firstByte P with
     | Some c => Ascii.eqb c "{"%char
     | None => false
     end.

(** [os.Stat] finds nothing to treat as a file at [P]: the path names
    nothing, or what it names cannot be reached. *)
Definition statFails (fs : gmap string Node) (P : string) : Prop :=
  fs !! P = None \/ fs !! P = Some Inaccessible.

(** What kind of value a JSON document holds, read off its first byte that
    is not white space. *)
Inductive Kind := object | array | text | number | boolean | null.

Definition kindOf (P : string) : option Kind :=
  match json.firstByte P with
  | Some c =>
      if Ascii.eqb c "{"%char then Some object
      else if Ascii.eqb c "["%char then Some array
      else if Ascii.eqb c json.quote then Some text
      else if Ascii.eqb c "-"%char || json.isDigit c then Some number
      else if Ascii.eqb c "t"%char || Ascii.eqb c "f"%char then Some boolean
      else if Ascii.eqb c "n"%char then Some null
      else None
  | None => None
  end.

(** [P] is within what the decoder of [encoding/json] can hold: no more than
    [json.maxNestingDepth] values are open at once, and every number fits a
    [float64]. *)
Definition withinDecoderLimits (P : string) : bool :=
  json.checkValid P
  && forallb json.fitsFloat64 (json.numbers json.outside EmptyString P).

(** The resolver as the specification has it: success exactly for a readable
    file or a JSON object, and otherwise the error [InvalidConfiguration]. *)
Definition resolverAsSpecified (ign : defIgnition) (w : World) : Prop :=
  let r := fst (createFile ign w) in
  (succeeds r <-> readableFile (files w) (Content ign) \/ jsonObject (Content ign) = true)
  /\ (~ succeeds r -> r = Returns (EmptyString, Some (InvalidConfiguration (Content ign)))).

(** The name and the files once [ioutil.TempFile] has made the temporary
    file. *)
Definition tempName (ign : defIgnition) (w : World) : option string :=
  match tempDirErr (sys w) with
  | Some _ => None
  | None =>
      match ioutil.firstFree (files w) (TempDir (sys w)) (Name ign) (randomNames (sys w)) with
      | (name, None) => Some name
      | (_, Some _) => None
      end
  end.

Definition withTemp (tmp : string) (fs : gmap string Node) : gmap string Node :=
  <[tmp := File EmptyString true]> fs.

(** ** The firmware channel *)

(** The argument tokens of the QEMU command line of the domain. *)
Definition tokens (dom : Domain) : list string :=
  match QEMUCommandline dom with
  | Some q => map Value (QEMU_Args q)
  | None => []
  end.



(** ** Concrete surroundings *)

Module example.

Definition dq : string := String json.quote EmptyString.

Definition nl : string := String "010"%char EmptyString.

(** A small Ignition document, [{"ignition":{"version":"2.2.0"}}]. *)
Definition document : string :=
  "{" +:+ dq +:+ "ignition" +:+ dq +:+ ":{" +:+ dq +:+ "version" +:+ dq +:+ ":"
  +:+ dq +:+ "2.2.0" +:+ dq +:+ "}}".

Definition pidLine : string := "GUESTFISH_PID=4513; export GUESTFISH_PID".

(** A system whose guestfish prints [listenOutput] when it starts listening
    and answers the remote commands, in their order, with [answers]. *)
Definition system (listenOutput : string) (answers : list (string * option error))
    : System :=
  {| TempDir := "/tmp";
     tempDirErr := None;
     randomNames := ["495051"; "525354"];
     diskFull := false;
     LookPath := fun name => Some ("/usr/bin/" +:+ name);
     pipeAndStart := fun _ _ => Running listenOutput None;
     combinedOutput :=
       fun before _ => nth (length before - 1) answers (EmptyString, None);
     imageErr := fun _ => None;
     poolUpload :=
       fun pool volumeDef _ =>
         ("/var/lib/libvirt/" +:+ pool +:+ "/" +:+ Volume_Name volumeDef, None) |}.

Definition world (s : System) : World :=
  {| sys := s;
     files := {[ "/etc/shadow" := File "root:*:19000:0:99999:7:::" false;
                 "/srv/worker.ign" := File document true ]};
     environ := ∅;
     issued := [] |}.

Definition disk : string := "/var/lib/libvirt/images/worker-0".

Definition domainWith (qemu : option DomainQEMUCommandline) : Domain :=
  {| Devices :=
       Some {| Disks :=
                 [ {| Source :=
                        Some {| DomainDiskSource_File :=
                                  Some {| DomainDiskSourceFile_File := disk |} |} |} ] |};
     QEMUCommandline := qemu |}.

Definition domain : Domain := domainWith None.

(** A domain without disks. *)
Definition diskless : Domain :=
  {| Devices := Some {| Disks := [] |}; QEMUCommandline := None |}.

(** Every remote command goes well and the boot filesystem is [/dev/sda1]. *)
Definition healthy : System :=
  system pidLine [(EmptyString, None); ("/dev/sda1" +:+ nl, None)].

(** The mount fails. *)
Definition mountFails : System :=
  system pidLine
    [(EmptyString, None); ("/dev/sda1" +:+ nl, None);
     ("libguestfs: error: mount: /dev/sda1: wrong fs type" +:+ nl, Some (New "exit status 1"))].

(** No filesystem has the label. *)
Definition noBoot : System :=
  system pidLine [(EmptyString, None); (" " +:+ nl, None)].

(** guestfish prints something else than its handle. *)
Definition noHandle : System := system "FOO; bar" [].

Definition ign (content : string) : defIgnition :=
  {| Name := "worker-0.ign"; PoolName := "default"; Content := content |}.

Definition libvirt : libvirtClient := {| poolName := "default" |}.

Definition ignition : Ignition := {| UserDataSecret := "worker-user-data" |}.

(** A secret store that holds [document] as the user data of every secret. *)
Definition kube : kubernetes.Interface :=
  {| kubernetes.SecretsGet := fun _ _ => ({| Data := {[ "userData" := document ]} |}, None) |}.

(** Neither [sudo] nor [guestfish] is installed. *)
Definition bare : System :=
  {| TempDir := "/tmp";
     tempDirErr := None;
     randomNames := ["495051"; "525354"];
     diskFull := false;
     LookPath := fun _ => None;
     pipeAndStart := fun _ _ => Running pidLine None;
     combinedOutput := fun _ _ => (EmptyString, None);
     imageErr := fun _ => None;
     poolUpload := fun _ _ _ => (EmptyString, None) |}.

(** A world in which [/root] may not be searched by this process. *)
Definition locked : World :=
  {| sys := healthy;
     files := {[ "/root/worker.ign" := Inaccessible ]};
     environ := ∅;
     issued := [] |}.

Fixpoint bytes (c : ascii) (n : nat) (rest : string) : string :=
  match n with
  | O => rest
  | S n => String c (bytes c n rest)
  end.

(** An object that holds [n] arrays, one inside the other:
    [{"a":[[...]]}]. *)
Definition nested (n : nat) : string :=
  "{" +:+ dq +:+ "a" +:+ dq +:+ ":" +:+ bytes "["%char n (bytes "]"%char n "}").

End example.


(** ** More vocabulary: the secret, the older lookup, more surroundings *)

(** The user data [setIgnition] and [setIgnitionForS390X] get from the secret
    store, when they get any: the secret has a name, it is fetched without
    an error and it has the key [userData]. *)
Definition userDataOf (kubeClient : kubernetes.Interface) (machineNamespace : string)
    (ignition : Ignition) : option string :=
  if String.eqb (UserDataSecret ignition) EmptyString then None
  else match kubernetes.SecretsGet kubeClient machineNamespace (UserDataSecret ignition) with
       | (secret, None) => Data secret !! "userData"
       | (_, Some _) => None
       end.

(** The last byte of [s] is [c]. *)
Fixpoint endsWith (c : ascii) (s : string) : bool :=
  match s with
  | EmptyString => false
  | String c0 EmptyString => Ascii.eqb c0 c
  | String _ rest => endsWith c rest
  end.

(** The device of a command [guestfish --remote -- mount <device> /] of the
    older revision. *)
Definition legacyMountDevice (cmd : Cmd) : option string :=
  match Args cmd with
  | [_; _; _; verb; device; _] => if String.eqb verb "mount" then Some device else None
  | _ => None
  end.

(** The error [legacy.execCmd] returns for the error of the command. *)
Definition legacyWrapRun (args : list string) (err : option error) : option error :=
  match err with
  | Some e =>
      Some (Wrap e ("error running command '" +:+ legacy.commandLine "guestfish" args +:+ "'"))
  | None => None
  end.

Module example2.

(** The output of guestfish cannot be read to its end. *)
Definition readFails : System :=
  {| TempDir := "/tmp";
     tempDirErr := None;
     randomNames := ["495051"; "525354"];
     diskFull := false;
     LookPath := fun name => Some ("/usr/bin/" +:+ name);
     pipeAndStart := fun _ _ => Running "GUESTFISH_PID=45" (Some (New "read |0: file already closed"));
     combinedOutput := fun _ _ => (EmptyString, None);
     imageErr := fun _ => None;
     poolUpload := fun _ _ _ => (EmptyString, None) |}.

(** Every name [ioutil.TempFile] draws for [worker-0.ign] is taken. *)
Definition crowded : World :=
  {| sys := example.healthy;
     files := {[ "/tmp/worker-0.ign495051" := File "a" true;
                 "/tmp/worker-0.ign525354" := File "b" true ]};
     environ := ∅;
     issued := [] |}.

(** A secret store that holds [content] as the user data of every secret. *)
Definition kubeWith (content : string) : kubernetes.Interface :=
  {| kubernetes.SecretsGet := fun _ _ => ({| Data := {[ "userData" := content ]} |}, None) |}.

(** A secret store whose secrets have no user data. *)
Definition kubeWithout : kubernetes.Interface :=
  {| kubernetes.SecretsGet := fun _ _ => ({| Data := {[ "password" := "x" ]} |}, None) |}.

(** guestfish lists the filesystems as the older revision expects them. *)
Definition listing : System :=
  example.system example.pidLine
    [(EmptyString, None);
     ("/dev/sda1: ext4" +:+ example.nl +:+ "/dev/sda2: vfat" +:+ example.nl, None)].

End example2.
(** * Properties *)

(** ** Running the statements *)

Lemma bind_ret {R A B} (a : A) (k : A -> Go R B) w : bind (ret a) k w = k a w.
Proof. reflexivity. Qed.

Lemma bind_return {R A B} (r : R) (k : A -> Go R B) w :
  bind (return_ r) k w = (Return r, w).
Proof. reflexivity. Qed.

Lemma bind_panic {R A B} reason (k : A -> Go R B) w :
  bind (panic reason) k w = (Panic reason, w).
Proof. reflexivity. Qed.

Lemma genCmd_eq useRoot env args w :
  genCmd useRoot env args w = (Returns (command (sys w) useRoot env args), w).
Proof.
  unfold genCmd, command, func, bind, return_, exec.Command, len.
  destruct useRoot; simpl; destruct (LookPath (sys w) _); simpl;
    destruct env; reflexivity.
Qed.

(** Whether the executable of the commands was found does not depend on
    their arguments or environment. *)
Lemma lookPathErr_command s useRoot env args env' args' :
  lookPathErr (command s useRoot env args) = lookPathErr (command s useRoot env' args').
Proof. reflexivity. Qed.

(** A command whose executable was not found is not handed to the operating
    system. *)
Lemma execCmd_not_found useRoot env args w e :
  lookPathErr (command (sys w) useRoot env args) = Some e ->
  execCmd useRoot env args w =
  (Returns (EmptyString, wrapRun (command (sys w) useRoot env args) (Some e)), w).
Proof.
  intros H. unfold execCmd, func, bind, call. rewrite genCmd_eq.
  unfold exec.CombinedOutput. rewrite H. reflexivity.
Qed.

Lemma execCmd_eq useRoot env args w :
  lookPathErr (command (sys w) useRoot env args) = None ->
  execCmd useRoot env args w =
  let cmd := command (sys w) useRoot env args in
  (Returns (fst (exec.answer (sys w) (issued w) cmd),
            wrapRun cmd (snd (exec.answer (sys w) (issued w) cmd))),
   with_issued w (issued w ++ [cmd])).
Proof.
  intros H. unfold execCmd, func, bind, call. rewrite genCmd_eq.
  unfold exec.CombinedOutput, exec.answer. rewrite H. cbn.
  destruct (combinedOutput _ _ _) as [out [e|]]; reflexivity.
Qed.

Lemma startCmd_eq useRoot env args w :
  startCmd useRoot env args w =
  let cmd := command (sys w) useRoot env args in
  (Returns (fst (started (sys w) (issued w) cmd)),
   with_issued w (issued w ++ snd (started (sys w) (issued w) cmd))).
Proof.
  unfold startCmd, func, bind, call. rewrite genCmd_eq.
  generalize (command (sys w) useRoot env args); intros cmd.
  unfold exec.StdoutPipe, exec.Start, started, readOutput, bytes.ReadFrom,
    func, bind, ret, return_, when.
  destruct w as [s fs env0 cmds]; cbn.
  destruct (pipeAndStart s cmds cmd) as [e|e|out [e|]] eqn:E; cbn;
    rewrite ?app_nil_r; try reflexivity;
    destruct (lookPathErr cmd); cbn; rewrite ?E, ?app_nil_r; reflexivity.
Qed.

Lemma bind_execCmd {R B} useRoot env args (k : string * option error -> Go R B) w :
  lookPathErr (command (sys w) useRoot env args) = None ->
  bind (call (execCmd useRoot env args)) k w =
  let cmd := command (sys w) useRoot env args in
  k (fst (exec.answer (sys w) (issued w) cmd),
     wrapRun cmd (snd (exec.answer (sys w) (issued w) cmd)))
    (with_issued w (issued w ++ [cmd])).
Proof. intros H. unfold bind, call. rewrite execCmd_eq by exact H. reflexivity. Qed.

Lemma bind_startCmd {R B} useRoot env args (k : string * option error -> Go R B) w :
  bind (call (startCmd useRoot env args)) k w =
  let cmd := command (sys w) useRoot env args in
  k (fst (started (sys w) (issued w) cmd))
    (with_issued w (issued w ++ snd (started (sys w) (issued w) cmd))).
Proof. unfold bind, call. rewrite startCmd_eq. reflexivity. Qed.

Lemma started_cases s before cmd r cs :
  started s before cmd = (r, cs) -> cs = [] \/ cs = [cmd].
Proof.
  unfold started.
  destruct (pipeAndStart s before cmd); [|destruct (lookPathErr cmd)|destruct (lookPathErr cmd)];
    intros [= <- <-]; auto.
Qed.

(** A command that has started was found. *)
Lemma started_found s before cmd out cs :
  started s before cmd = (out, None, cs) -> lookPathErr cmd = None.
Proof.
  unfold started. destruct (pipeAndStart s before cmd) as [e|e|o [e|]];
    destruct (lookPathErr cmd); try discriminate; reflexivity.
Qed.

Lemma started_ok s before cmd out cs :
  started s before cmd = (out, None, cs) -> cs = [cmd].
Proof.
  unfold started. destruct (pipeAndStart s before cmd) as [e|e|o [e|]]; try discriminate;
    destruct (lookPathErr cmd); intros [= ]; subst; reflexivity.
Qed.

(** ** The first disk of the domain *)

Lemma firstDiskFile_Some {R} dom d w :
  diskFile dom = Some d -> @firstDiskFile R dom w = (Next d, w).
Proof.
  unfold diskFile, firstDiskFile.
  destruct dom as [[[[|[[[[[file]|]]|]] disks]]|] qemu]; cbn;
    intros H; inversion H; reflexivity.
Qed.

Lemma firstDiskFile_None {R} dom w :
  diskFile dom = None -> exists reason, @firstDiskFile R dom w = (Panic reason, w).
Proof.
  unfold diskFile, firstDiskFile.
  destruct dom as [[[[|[[[[[file]|]]|]] disks]]|] qemu]; cbn;
    intros H; inversion H; eauto.
Qed.

Lemma bind_firstDiskFile {R B} dom d (k : string -> Go R B) w :
  diskFile dom = Some d -> bind (firstDiskFile dom) k w = k d w.
Proof. intros H. unfold bind. rewrite (firstDiskFile_Some _ _ _ H). reflexivity. Qed.

(** ** Lists *)

Lemma len_2 {A} (l : list A) : (len l =? 2) = true -> exists a b, l = [a; b].
Proof.
  unfold len. intros H. apply Z.eqb_eq in H.
  destruct l as [|a [|b [|c l]]]; cbn [length] in H; try lia. eauto.
Qed.

Lemma len_not_2 {A} (l : list A) : (len l =? 2) = false -> length l <> 2%nat.
Proof. unfold len. intros H E. rewrite E in H. discriminate. Qed.

Lemma len_is_2 {A} (l : list A) : (len l =? 2) = true -> length l = 2%nat.
Proof. unfold len. intros H. apply Z.eqb_eq in H. lia. Qed.

Lemma length_zero s : (Z.of_nat (String.length s) =? 0) = true <-> s = EmptyString.
Proof.
  destruct s; cbn [String.length]; split; intros H;
    try reflexivity; discriminate.
Qed.

Lemma split_cons {A} (x : A) l before c later :
  x :: l = before ++ c :: later ->
  (before = [] /\ c = x /\ later = l) \/ (exists b, before = x :: b /\ l = b ++ c :: later).
Proof. destruct before as [|y b]; cbn; intros [= -> ->]; eauto. Qed.

Lemma split_nil {A} (before : list A) c later : [] = before ++ c :: later -> False.
Proof. destruct before; discriminate. Qed.

(** ** Every way through the session *)

(** Two facts about the same answer agree. *)
Ltac reconcile :=
  repeat match goal with
  | H : (_, _) = (_, _) |- _ => inversion H; subst; clear H
  | H : _ :: _ = _ :: _ |- _ => inversion H; subst; clear H
  | H : ?x = _, H' : ?x = _ |- _ => rewrite H in H'
  end.

Ltac step_exec :=
  rewrite bind_execCmd by (match goal with H : lookPathErr _ = None |- _ => exact H end);
  cbn zeta; cbn [sys issued with_issued];
  rewrite <- ?app_assoc; cbn [app];
  (let out := fresh "out" in let e := fresh "e" in let H := fresh "Hrun" in
   match goal with
   | |- context [exec.answer ?s ?b ?c] => destruct (exec.answer s b c) as [out [e|]] eqn:H
   end);
  cbn [fst snd wrapRun isErr when]; [rewrite bind_return | rewrite bind_ret].

Ltac step_listen :=
  rewrite bind_startCmd; cbn zeta;
  (let output := fresh "output" in let e := fresh "e" in let cs := fresh "cs" in
   let Hst := fresh "Hst" in let Hcs := fresh "Hcs" in
   match goal with
   | |- context [started ?s ?b ?c] => destruct (started s b c) as [[output [e|]] cs] eqn:Hst
   end;
   [ | pose proof (started_ok _ _ _ _ _ Hst) as Hcs; subst cs;
       pose proof (started_found _ _ _ _ _ Hst) ]);
  cbn [fst snd isErr when]; [rewrite bind_return | rewrite bind_ret].

Ltac step_parse :=
  (let Hlen := fresh "Hlen" in let Hsp := fresh "Hsp" in let handle := fresh "handle" in
   let Hlen1 := fresh "Hlen1" in
   match goal with
   | |- context [len (Split ?output ";")] =>
       destruct (len (Split output ";") =? 2) eqn:Hlen; cbn [negb when];
       [ rewrite bind_ret;
         destruct (len_2 _ Hlen) as (handle & ? & Hsp); rewrite Hsp;
         cbn [index lookup list_lookup]; rewrite bind_ret;
         destruct (len (Split handle "=") =? 2) eqn:Hlen1; cbn [negb when];
         [ rewrite bind_ret | rewrite bind_return ]
       | rewrite bind_return ]
   end).

Ltac step_boot :=
  (let Hb := fresh "Hboot" in
   match goal with
   | |- context [when (Z.of_nat (String.length (TrimSpace ?o)) =? 0)] =>
       destruct (Z.of_nat (String.length (TrimSpace o)) =? 0) eqn:Hb
   end; cbn [when];
   [ rewrite bind_return | rewrite bind_ret ]).

(** The ways through the function for a domain whose first disk has a
    file: the listen step fails; its output has not two segments; the first
    segment is not a key and a value; one of [run] and the lookup fails; the
    lookup finds nothing; one of mount, upload, umount-all and exit fails;
    all goes well.  Ways that contradict what is known are closed. *)
Ltac run_session Hd :=
  unfold injectIgnitionByGuestfish, func;
  rewrite (bind_firstDiskFile _ _ _ _ Hd);
  repeat (first [ step_listen | step_parse | step_exec | step_boot ]; reconcile);
  cbn [fst snd]; intros [= <- <-]; cbn [issued with_issued sys environ files];
  rewrite <- ?app_assoc; cbn [app].

Ltac split_trace H :=
  repeat (first
    [ apply split_nil in H; destruct H
    | apply split_cons in H;
      destruct H as [(? & ? & ?) | (? & ? & H)]; subst ]).

Ltac same_answer :=
  match goal with
  | H : exec.answer ?s ?b ?c = _, H' : exec.answer ?s ?b ?c = _ |- _ =>
      rewrite H in H'; inversion H'; subst
  end.

(** C6. The guestfish session issues its commands in the fixed order listen,
    run, filesystem lookup, mount, upload, umount-all, exit, with the handle
    the listen step printed and the device the lookup answered: what it has
    issued when it returns is an initial piece of that list, and all of it
    when it returns no error.  When a command after the listen step fails,
    it is the last one issued and the function returns its error wrapped
    with the command line of that very command.  No step is left out: the
    session stops before the end only where the listen step fails, where
    its output holds no handle, at the command that fails, or after a
    lookup that finds no device; a command that goes well is followed by
    the next one, up to [exit], after which no error is returned. *)
Theorem session_steps_in_order dom d f w r w' :
  diskFile dom = Some d ->
  injectIgnitionByGuestfish dom f w = (r, w') ->
  let s := sys w in
  let handle := capturedHandle dom w in
  let bootDisk := bootDevice dom w in
  let steps := session s d handle bootDisk f in
  let listen := started s (issued w) (listenCmd s d) in
  exists cmds,
    issued w' = issued w ++ cmds
    /\ cmds `prefix_of` steps
    /\ (r = Returns None -> cmds = steps)
    /\ (forall before cmd later out e,
          cmds = before ++ cmd :: later -> before <> [] ->
          exec.answer s (issued w ++ before) cmd = (out, Some e) ->
          later = []
          /\ r = Returns (Some (Wrap e ("error running command '" +:+ commandLine cmd +:+ "'"))))
    /\ (bootDisk = EmptyString ->
        cmds `prefix_of` [listenCmd s d; runCmd s handle; findfsCmd s handle])
    /\ ((exists out e, fst listen = (out, Some e) /\ cmds = snd listen /\ r = Returns (Some e))
        \/ (exists output,
              listen = ((output, None), [listenCmd s d])
              /\ (((length (Split output ";"%char) <> 2%nat
                    \/ length (Split handle "="%char) <> 2%nat)
                   /\ cmds = [listenCmd s d]
                   /\ exists text, r = Returns (Some (New (text +:+ output))))
                  \/ (length (Split output ";"%char) = 2%nat
                      /\ length (Split handle "="%char) = 2%nat
                      /\ exists before cmd out err,
                           cmds = before ++ [cmd] /\ before <> []
                           /\ exec.answer s (issued w ++ before) cmd = (out, err)
                           /\ match err with
                              | Some e =>
                                  r = Returns (Some (Wrap e ("error running command '"
                                                             +:+ commandLine cmd +:+ "'")))
                              | None =>
                                  (cmds = steps /\ r = Returns None)
                                  \/ (cmd = findfsCmd s handle
                                      /\ bootDisk = EmptyString
                                      /\ r = Returns
                                             (Some (New "failed to get the boot filesystem")))
                              end)))).
Proof.
  intros Hd. cbn zeta. unfold bootDevice, capturedHandle. rewrite Hd.
  unfold session, firstSegment, listenCmd, runCmd, findfsCmd, mountCmd, uploadCmd, umountCmd,
    exitCmd.
  run_session Hd.
  1: destruct (started_cases _ _ _ _ _ Hst); subst cs.
  all: cbn [fst snd hd].
  all: repeat match goal with H : exec.answer _ _ _ = _ |- _ => rewrite H end.
  all: cbn [fst snd].
  all: eexists; split; [ reflexivity | ].
  all: split; [ eexists; cbn [app]; reflexivity | ].
  all: split; [ first [ discriminate | intros _; reflexivity ] | ].
  all: split;
    [ try (intros before cmd later out' e' Hsplit Hne Hans; split_trace Hsplit;
           try congruence; cbn [app] in Hans; same_answer; split; reflexivity) | ].
  all: split;
    [ first [ intros _; eexists; cbn [app]; reflexivity
            | intros Hb; rewrite <- length_zero in Hb; congruence ] | ].
  1-2: left; eexists _, _; repeat split; reflexivity.
  all: right; eexists; split; [ reflexivity | ].
  all: try (left; split;
            [ first [ left; apply len_not_2; assumption | right; apply len_not_2; assumption ]
            | split; [ reflexivity | eexists; reflexivity ] ]; fail).
  all: right; split; [ apply len_is_2; assumption | split; [ apply len_is_2; assumption | ] ].
  all: match goal with
       | |- exists before cmd out err, [?a; ?b] = _ /\ _ => exists [a], b
       | |- exists before cmd out err, [?a; ?b; ?c] = _ /\ _ => exists [a; b], c
       | |- exists before cmd out err, [?a; ?b; ?c; ?d] = _ /\ _ => exists [a; b; c], d
       | |- exists before cmd out err, [?a; ?b; ?c; ?d; ?e] = _ /\ _ => exists [a; b; c; d], e
       | |- exists before cmd out err, [?a; ?b; ?c; ?d; ?e; ?g] = _ /\ _ =>
           exists [a; b; c; d; e], g
       | |- exists before cmd out err, [?a; ?b; ?c; ?d; ?e; ?g; ?h] = _ /\ _ =>
           exists [a; b; c; d; e; g], h
       end.
  all: eexists _, _; split; [ reflexivity | split; [ discriminate | ] ].
  all: split; [ cbn [app]; eassumption | cbn beta iota ].
  all: try reflexivity.
  - right. split; [ reflexivity | ]. split; [ apply length_zero; exact Hboot | reflexivity ].
  - left. split; reflexivity.
Qed.

Lemma session_steps_in_order_witness :
  let w := example.world example.mountFails in
  let f := "/var/lib/libvirt/default/worker-0.ign" in
  let res := injectIgnitionByGuestfish example.domain f w in
  diskFile example.domain = Some example.disk
  /\
  let s := sys w in
  let handle := capturedHandle example.domain w in
  let bootDisk := bootDevice example.domain w in
  let steps := session s example.disk handle bootDisk f in
  let listen := started s (issued w) (listenCmd s example.disk) in
  exists cmds,
    issued (snd res) = issued w ++ cmds
    /\ cmds `prefix_of` steps
    /\ (fst res = Returns None -> cmds = steps)
    /\ (forall before cmd later out e,
          cmds = before ++ cmd :: later -> before <> [] ->
          exec.answer s (issued w ++ before) cmd = (out, Some e) ->
          later = []
          /\ fst res
             = Returns (Some (Wrap e ("error running command '" +:+ commandLine cmd +:+ "'"))))
    /\ (bootDisk = EmptyString ->
        cmds `prefix_of` [listenCmd s example.disk; runCmd s handle; findfsCmd s handle])
    /\ ((exists out e,
           fst listen = (out, Some e) /\ cmds = snd listen /\ fst res = Returns (Some e))
        \/ (exists output,
              listen = ((output, None), [listenCmd s example.disk])
              /\ (((length (Split output ";"%char) <> 2%nat
                    \/ length (Split handle "="%char) <> 2%nat)
                   /\ cmds = [listenCmd s example.disk]
                   /\ exists text, fst res = Returns (Some (New (text +:+ output))))
                  \/ (length (Split output ";"%char) = 2%nat
                      /\ length (Split handle "="%char) = 2%nat
                      /\ exists before cmd out err,
                           cmds = before ++ [cmd] /\ before <> []
                           /\ exec.answer s (issued w ++ before) cmd = (out, err)
                           /\ match err with
                              | Some e =>
                                  fst res = Returns (Some (Wrap e ("error running command '"
                                                             +:+ commandLine cmd +:+ "'")))
                              | None =>
                                  (cmds = steps /\ fst res = Returns None)
                                  \/ (cmd = findfsCmd s handle
                                      /\ bootDisk = EmptyString
                                      /\ fst res = Returns
                                             (Some (New "failed to get the boot filesystem")))
                              end)))).
Proof.
  intros w f res. split; [ reflexivity | ].
  apply (session_steps_in_order example.domain example.disk f w (fst res) (snd res));
    [ reflexivity | vm_compute; reflexivity ].
Defined.

(** The session with a failing mount: four commands are issued, the mount
    is the last of them, and its command line is in the error. *)
Example mount_failure_run :
  let w := example.world example.mountFails in
  let out := injectIgnitionByGuestfish example.domain "/var/lib/libvirt/default/worker-0.ign" w in
  map Args (issued (snd out))
  = [ ["sudo"; "--preserve-env"; "guestfish"; "--listen"; "-a"; example.disk];
      ["sudo"; "--preserve-env"; "guestfish"; "--remote"; "--"; "run"];
      ["sudo"; "--preserve-env"; "guestfish"; "--remote"; "--"; "findfs-label"; "boot"];
      ["sudo"; "--preserve-env"; "guestfish"; "--remote"; "--"; "mount"; "/dev/sda1"; "/"] ]
  /\ fst out
     = Returns (Some (Wrap (New "exit status 1")
         "error running command '/usr/bin/sudo sudo --preserve-env guestfish --remote -- mount /dev/sda1 /'")).
Proof. vm_compute. split; reflexivity. Qed.

(** Without [sudo] nothing is handed to the operating system. *)
Example missing_executable_run :
  let w := example.world example.bare in
  let out := injectIgnitionByGuestfish example.domain "/var/lib/libvirt/default/worker-0.ign" w in
  issued (snd out) = []
  /\ fst out
     = Returns (Some (Wrap (New ("exec: " +:+ example.dq +:+ "sudo" +:+ example.dq
                                 +:+ ": executable file not found in $PATH"))
         ("error starting command 'sudo sudo --preserve-env guestfish --listen -a "
          +:+ example.disk +:+ "'")))
  /\ execCmd true [] ["--remote"; "--"; "run"] w
     = (Returns (EmptyString,
                 Some (Wrap (New ("exec: " +:+ example.dq +:+ "sudo" +:+ example.dq
                                  +:+ ": executable file not found in $PATH"))
                         "error running command 'sudo sudo --preserve-env guestfish --remote -- run'")),
        w).
Proof. vm_compute. repeat split; reflexivity. Qed.

Example healthy_run :
  let w := example.world example.healthy in
  let f := "/var/lib/libvirt/default/worker-0.ign" in
  let out := injectIgnitionByGuestfish example.domain f w in
  fst out = Returns None
  /\ issued (snd out) = session example.healthy example.disk "GUESTFISH_PID=4513" "/dev/sda1" f.
Proof. vm_compute. split; reflexivity. Qed.

(** ** The filesystem lookup and the handle *)

(** Output made of blanks, tabs and line ends only trims to nothing. *)
Lemma TrimSpace_blank s :
  forallb asciiSpace (list_ascii_of_string s) = true -> TrimSpace s = EmptyString.
Proof.
  intros H. unfold TrimSpace.
  assert (Hl : TrimLeftSpace s = EmptyString).
  { induction s as [|c s IH]; [ reflexivity | ].
    cbn [list_ascii_of_string forallb] in H. apply andb_true_iff in H as [Hc Hs].
    cbn [TrimLeftSpace]. rewrite Hc. exact (IH Hs). }
  rewrite Hl. reflexivity.
Qed.

(** C2. Once the filesystem lookup has answered: when its output, trimmed of
    white space, is a device, the next command issued is the mount of
    exactly that device on [/]; when the trimmed output is empty, the
    function returns the error for the missing boot filesystem and the
    lookup is the last command issued, so that nothing is mounted. *)
Theorem boot_filesystem_lookup dom d f w r w' handle out :
  diskFile dom = Some d ->
  lookedUp (sys w) (issued w) d handle out ->
  injectIgnitionByGuestfish dom f w = (r, w') ->
  let s := sys w in
  (TrimSpace out <> EmptyString ->
   exists later,
     issued w'
     = issued w
       ++ [listenCmd s d; runCmd s handle; findfsCmd s handle; mountCmd s handle (TrimSpace out)]
       ++ later)
  /\ (TrimSpace out = EmptyString ->
      r = Returns (Some (New "failed to get the boot filesystem"))
      /\ issued w' = issued w ++ [listenCmd s d; runCmd s handle; findfsCmd s handle]).
Proof.
  intros Hd (output & rest & o & H1 & H2 & H3 & H4 & H5).
  unfold listenCmd, runCmd, findfsCmd, mountCmd in *.
  run_session Hd.
  all: try (match goal with
            | H : (len _ =? 2) = false |- _ =>
                apply len_not_2 in H; rewrite ?H2 in H; exfalso; apply H; auto
            end).
  all: split; intros Hb.
  all: try (apply length_zero in Hboot; contradiction).
  all: try (rewrite <- length_zero in Hb; congruence).
  all: try (split; reflexivity).
  all: eexists; reflexivity.
Qed.

Lemma boot_filesystem_lookup_witness :
  let w := example.world example.noBoot in
  let f := "/var/lib/libvirt/default/worker-0.ign" in
  let out := injectIgnitionByGuestfish example.domain f w in
  let handle := "GUESTFISH_PID=4513" in
  let s := sys w in
  (diskFile example.domain = Some example.disk
   /\ lookedUp s (issued w) example.disk handle (" " +:+ example.nl))
  /\ (TrimSpace (" " +:+ example.nl) <> EmptyString ->
      exists later,
        issued (snd out)
        = issued w
          ++ [listenCmd s example.disk; runCmd s handle; findfsCmd s handle;
              mountCmd s handle (TrimSpace (" " +:+ example.nl))]
          ++ later)
  /\ (TrimSpace (" " +:+ example.nl) = EmptyString ->
      fst out = Returns (Some (New "failed to get the boot filesystem"))
      /\ issued (snd out)
         = issued w ++ [listenCmd s example.disk; runCmd s handle; findfsCmd s handle]).
Proof.
  intros w f out handle s.
  assert (Hl : lookedUp s (issued w) example.disk handle (" " +:+ example.nl)).
  { exists example.pidLine, " export GUESTFISH_PID", EmptyString.
    repeat split; vm_compute; reflexivity. }
  split; [ split; [ reflexivity | exact Hl ] | ].
  apply (boot_filesystem_lookup example.domain example.disk f w (fst out) (snd out)
           handle (" " +:+ example.nl));
    [ reflexivity | exact Hl | vm_compute; reflexivity ].
Defined.

(** The two outcomes of the lookup on concrete answers. *)
Example lookup_finds_device :
  let w := example.world example.healthy in
  let out := injectIgnitionByGuestfish example.domain "worker-0.ign" w in
  map Args (issued (snd out)) !! 3%nat
  = Some ["sudo"; "--preserve-env"; "guestfish"; "--remote"; "--"; "mount"; "/dev/sda1"; "/"].
Proof. vm_compute. reflexivity. Qed.

Example lookup_finds_nothing :
  let w := example.world example.noBoot in
  let out := injectIgnitionByGuestfish example.domain "worker-0.ign" w in
  fst out = Returns (Some (New "failed to get the boot filesystem"))
  /\ map Args (issued (snd out))
     = [ ["sudo"; "--preserve-env"; "guestfish"; "--listen"; "-a"; example.disk];
         ["sudo"; "--preserve-env"; "guestfish"; "--remote"; "--"; "run"];
         ["sudo"; "--preserve-env"; "guestfish"; "--remote"; "--"; "findfs-label"; "boot"] ].
Proof. vm_compute. split; reflexivity. Qed.


(** C3. When guestfish starts listening and prints
    [GUESTFISH_PID=4513; export GUESTFISH_PID], the [run] command is issued
    next, and every command issued after the listen step carries the
    environment [GUESTFISH_PID=4513] and nothing else.  When the output has
    not exactly two segments around [;], or its first segment has not
    exactly two parts around [=], the function returns the error of the
    parse and the listen step is the last command issued. *)
Theorem handle_parsing dom d f w r w' output :
  diskFile dom = Some d ->
  started (sys w) (issued w) (listenCmd (sys w) d) = ((output, None), [listenCmd (sys w) d]) ->
  injectIgnitionByGuestfish dom f w = (r, w') ->
  (output = "GUESTFISH_PID=4513; export GUESTFISH_PID" ->
   exists later,
     issued w' = issued w ++ listenCmd (sys w) d :: runCmd (sys w) "GUESTFISH_PID=4513" :: later
     /\ Forall (fun c => Env c = ["GUESTFISH_PID=4513"])
               (runCmd (sys w) "GUESTFISH_PID=4513" :: later))
  /\ (length (Split output ";"%char) <> 2%nat ->
      r = Returns (Some (New ("Invalid output when starting guestfish: " +:+ output)))
      /\ issued w' = issued w ++ [listenCmd (sys w) d])
  /\ (length (Split output ";"%char) = 2%nat ->
      length (Split (firstSegment output) "="%char) <> 2%nat ->
      r = Returns (Some (New ("failed to get the guestfish PID from " +:+ output)))
      /\ issued w' = issued w ++ [listenCmd (sys w) d]).
Proof.
  intros Hd Hlisten. unfold listenCmd, runCmd, firstSegment in *.
  run_session Hd.
  all: split;
    [ intros ->;
      first [ vm_compute in Hlen; discriminate
            | vm_compute in Hsp; inversion Hsp; subst;
              first [ vm_compute in Hlen1; discriminate
                    | eexists; split; [ reflexivity | repeat constructor ] ] ]
    | split ].
  all: cbn [hd]; intros.
  all: try (split; reflexivity).
  all: exfalso.
  all: try (apply len_not_2 in Hlen; contradiction).
  all: try (destruct (len_2 _ Hlen1) as (? & ? & E); rewrite E in *).
  all: cbn [length] in *; congruence.
Qed.

Lemma handle_parsing_witness :
  let w := example.world example.healthy in
  let f := "/var/lib/libvirt/default/worker-0.ign" in
  let out := injectIgnitionByGuestfish example.domain f w in
  let output := "GUESTFISH_PID=4513; export GUESTFISH_PID" in
  let listen := listenCmd (sys w) example.disk in
  (diskFile example.domain = Some example.disk
   /\ started (sys w) (issued w) listen = ((output, None), [listen]))
  /\ (output = "GUESTFISH_PID=4513; export GUESTFISH_PID" ->
      exists later,
        issued (snd out) = issued w ++ listen :: runCmd (sys w) "GUESTFISH_PID=4513" :: later
        /\ Forall (fun c => Env c = ["GUESTFISH_PID=4513"])
                  (runCmd (sys w) "GUESTFISH_PID=4513" :: later))
  /\ (length (Split output ";"%char) <> 2%nat ->
      fst out = Returns (Some (New ("Invalid output when starting guestfish: " +:+ output)))
      /\ issued (snd out) = issued w ++ [listen])
  /\ (length (Split output ";"%char) = 2%nat ->
      length (Split (firstSegment output) "="%char) <> 2%nat ->
      fst out = Returns (Some (New ("failed to get the guestfish PID from " +:+ output)))
      /\ issued (snd out) = issued w ++ [listen]).
Proof.
  intros w f out output listen.
  split; [ split; reflexivity | ].
  apply (handle_parsing example.domain example.disk f w (fst out) (snd out) output);
    [ reflexivity | reflexivity | vm_compute; reflexivity ].
Defined.

(** Output without a handle: the parse error, and nothing after the listen
    step. *)
Example malformed_handle_run :
  let w := example.world example.noHandle in
  let out := injectIgnitionByGuestfish example.domain "worker-0.ign" w in
  fst out = Returns (Some (New "failed to get the guestfish PID from FOO; bar"))
  /\ map Args (issued (snd out))
     = [ ["sudo"; "--preserve-env"; "guestfish"; "--listen"; "-a"; example.disk] ].
Proof. vm_compute. split; reflexivity. Qed.

(** ** The environment of the process *)

Lemma session_frame dom d f w r w' :
  diskFile dom = Some d ->
  injectIgnitionByGuestfish dom f w = (r, w') ->
  exists cmds,
    w' = with_issued w (issued w ++ cmds)
    /\ Forall (fun c => Env c = []) (take 1 cmds)
    /\ Forall (fun c => Env c = [capturedHandle dom w]) (drop 1 cmds).
Proof.
  intros Hd. unfold capturedHandle, listenCmd, firstSegment. rewrite Hd.
  unfold injectIgnitionByGuestfish, func;
  rewrite (bind_firstDiskFile _ _ _ _ Hd);
  repeat (first [ step_listen | step_parse | step_exec | step_boot ]);
  cbn [fst snd]; intros [= <- <-]; unfold with_issued; cbn [issued sys environ files];
  rewrite <- ?app_assoc; cbn [app].
  1: destruct (started_cases _ _ _ _ _ Hst); subst cs.
  all: eexists; split; [ reflexivity | ].
  all: cbn [take drop fst snd hd]; rewrite ?Hsp; cbn [hd].
  all: split; repeat constructor.
Qed.

(** C7. The session leaves the environment of the provisioning process as
    it was: all it changes in its surroundings is the list of commands
    handed to the operating system.  The listen command is given no
    environment of its own, and every later command is given the captured
    handle as its own environment. *)
Theorem handle_stays_local dom f w :
  let w' := snd (injectIgnitionByGuestfish dom f w) in
  environ w' = environ w
  /\ exists cmds,
       w' = with_issued w (issued w ++ cmds)
       /\ Forall (fun c => Env c = []) (take 1 cmds)
       /\ Forall (fun c => Env c = [capturedHandle dom w]) (drop 1 cmds).
Proof.
  cbn zeta.
  assert (H : exists cmds,
             snd (injectIgnitionByGuestfish dom f w) = with_issued w (issued w ++ cmds)
             /\ Forall (fun c => Env c = []) (take 1 cmds)
             /\ Forall (fun c => Env c = [capturedHandle dom w]) (drop 1 cmds)).
  { destruct (diskFile dom) as [d|] eqn:Hd.
    - destruct (injectIgnitionByGuestfish dom f w) as [r w'] eqn:E.
      exact (session_frame dom d f w r w' Hd E).
    - exists []. destruct (firstDiskFile_None (R := option error) dom w Hd) as [reason Hp].
      unfold injectIgnitionByGuestfish, func, bind. rewrite Hp. cbn.
      rewrite app_nil_r. destruct w; repeat split; constructor. }
  split; [ | exact H ].
  destruct H as (cmds & -> & _). reflexivity.
Qed.

Example handle_in_each_command :
  let w := example.world example.healthy in
  let w' := snd (injectIgnitionByGuestfish example.domain "worker-0.ign" w) in
  map Env (issued w')
  = [ []; ["GUESTFISH_PID=4513"]; ["GUESTFISH_PID=4513"]; ["GUESTFISH_PID=4513"];
      ["GUESTFISH_PID=4513"]; ["GUESTFISH_PID=4513"]; ["GUESTFISH_PID=4513"] ]
  /\ environ w' = environ w.
Proof. vm_compute. split; reflexivity. Qed.

(** ** The older revision *)

Lemma Command_eq {R} name arg w :
  name = "guestfish" ->
  @exec.Command R name arg w = (Next (command (sys w) false [] arg), w).
Proof.
  intros ->. unfold exec.Command, command. destruct (LookPath (sys w) _); reflexivity.
Qed.

Lemma legacy_startCmd_eq args w :
  legacy.startCmd args w =
  (Returns (fst (legacyStarted (sys w) (issued w) args)),
   with_issued w (issued w ++ snd (legacyStarted (sys w) (issued w) args))).
Proof.
  unfold legacy.startCmd, legacyStarted, func, bind, call.
  rewrite Command_eq by reflexivity.
  generalize (command (sys w) false [] args); intros cmd.
  unfold exec.StdoutPipe, exec.Start, readOutput, bytes.ReadFrom,
    func, bind, ret, return_, when.
  destruct w as [s fs env0 cmds]; cbn.
  destruct (pipeAndStart s cmds cmd) as [e|e|out [e|]] eqn:E; cbn;
    rewrite ?app_nil_r; try reflexivity;
    destruct (lookPathErr cmd); cbn; rewrite ?E, ?app_nil_r; reflexivity.
Qed.

Lemma bind_legacy_startCmd {R B} args (k : string * option error -> Go R B) w :
  bind (call (legacy.startCmd args)) k w =
  k (fst (legacyStarted (sys w) (issued w) args))
    (with_issued w (issued w ++ snd (legacyStarted (sys w) (issued w) args))).
Proof. unfold bind, call. rewrite legacy_startCmd_eq. reflexivity. Qed.

Lemma Split_without_separator s sep :
  ~ In sep (list_ascii_of_string s) -> Split s sep = [s].
Proof.
  induction s as [|c s IH]; cbn; intros H; [ reflexivity | ].
  destruct (Ascii.eqb_spec c sep) as [->|Hne].
  - exfalso. apply H. left. reflexivity.
  - rewrite IH; [ reflexivity | ]. intros Hin. apply H. right. exact Hin.
Qed.

(** C10. In the older revision, when the listen step prints two segments
    around [;] and the first holds no [=], the check of the handle does not
    fire, because it looks again at the number of segments: the function
    goes on to read the second part of the handle, which is not there, and
    panics with an index out of range instead of returning the error of
    the parse. *)
Theorem legacy_handle_check_misses dom d f w output seg rest :
  diskFile dom = Some d ->
  legacyStarted (sys w) (issued w) ["--listen"; "-a"; d]
  = ((output, None), [command (sys w) false [] ["--listen"; "-a"; d]]) ->
  Split output ";"%char = [seg; rest] ->
  ~ In "="%char (list_ascii_of_string seg) ->
  legacy.injectIgnitionByGuestfish dom f w
  = (Panics "runtime error: index out of range",
     with_issued w (issued w ++ [command (sys w) false [] ["--listen"; "-a"; d]])).
Proof.
  intros Hd Hst Hsp Hseg.
  unfold legacy.injectIgnitionByGuestfish, func.
  rewrite (bind_firstDiskFile _ _ _ _ Hd).
  rewrite bind_legacy_startCmd, Hst. cbn [fst snd isErr when]. rewrite bind_ret.
  rewrite Hsp. change (negb (len [seg; rest] =? 2)) with false.
  cbn [when index lookup list_lookup]. rewrite !bind_ret.
  rewrite (Split_without_separator _ _ Hseg).
  cbn [index lookup list_lookup]. rewrite bind_ret, bind_panic. reflexivity.
Qed.

Lemma legacy_handle_check_misses_witness :
  let w := example.world example.noHandle in
  let listen := command (sys w) false [] ["--listen"; "-a"; example.disk] in
  (diskFile example.domain = Some example.disk
   /\ legacyStarted (sys w) (issued w) ["--listen"; "-a"; example.disk]
      = (("FOO; bar", None), [listen])
   /\ Split "FOO; bar" ";"%char = ["FOO"; " bar"]
   /\ ~ In "="%char (list_ascii_of_string "FOO"))
  /\ legacy.injectIgnitionByGuestfish example.domain "worker-0.ign" w
     = (Panics "runtime error: index out of range", with_issued w (issued w ++ [listen])).
Proof.
  intros w listen.
  assert (Hseg : ~ In "="%char (list_ascii_of_string "FOO")).
  { cbn. intros [H|[H|[H|[]]]]; discriminate H. }
  split; [ repeat split; try reflexivity; exact Hseg | ].
  apply (legacy_handle_check_misses example.domain example.disk "worker-0.ign" w
           "FOO; bar" "FOO" " bar"); [ reflexivity | reflexivity | reflexivity | exact Hseg ].
Defined.

(** The older revision exports the handle into the environment of the
    provisioning process, which the current one leaves alone. *)
Example legacy_exports_handle :
  let w := example.world example.healthy in
  let w' := snd (legacy.injectIgnitionByGuestfish example.domain "worker-0.ign" w) in
  environ w !! "GUESTFISH_PID" = None
  /\ environ w' !! "GUESTFISH_PID" = Some "4513".
Proof. vm_compute. split; reflexivity. Qed.

(** ** Domains without a first disk file *)

(** The function returns, whatever the commands answer, once the domain has
    a first disk with a file. *)
Lemma session_returns dom d f w :
  diskFile dom = Some d ->
  exists r, fst (injectIgnitionByGuestfish dom f w) = Returns r.
Proof.
  intros Hd. destruct (injectIgnitionByGuestfish dom f w) as [r w'] eqn:E.
  revert E. run_session Hd; eexists; reflexivity.
Qed.

(** C9. The session reads the file of the first disk of the domain without
    a guard.  For a domain that has no such file, both revisions panic
    before any command is issued and return no error: with an index out of
    range when the list of disks is empty, with a nil dereference when the
    first disk has no source or its source is not a file. *)
Theorem first_disk_is_required dom f w :
  diskFile dom = None ->
  exists reason,
    injectIgnitionByGuestfish dom f w = (Panics reason, w)
    /\ legacy.injectIgnitionByGuestfish dom f w = (Panics reason, w)
    /\ (forall devices,
          Devices dom = Some devices -> Disks devices = [] ->
          reason = "runtime error: index out of range")
    /\ (forall devices disk rest,
          Devices dom = Some devices -> Disks devices = disk :: rest ->
          reason = "runtime error: invalid memory address or nil pointer dereference").
Proof.
  unfold diskFile, injectIgnitionByGuestfish, legacy.injectIgnitionByGuestfish,
    firstDiskFile, func.
  destruct dom as [[[[|[[[[[file]|]]|]] disks]]|] qemu]; cbn; intros H; try discriminate H.
  all: eexists; split; [ reflexivity | split; [ reflexivity | ] ].
  all: split; intros; simplify_eq; reflexivity.
Qed.

Lemma first_disk_is_required_witness :
  let w := example.world example.healthy in
  diskFile example.diskless = None
  /\ exists reason,
       injectIgnitionByGuestfish example.diskless "worker-0.ign" w = (Panics reason, w)
       /\ legacy.injectIgnitionByGuestfish example.diskless "worker-0.ign" w = (Panics reason, w)
       /\ (forall devices,
             Devices example.diskless = Some devices -> Disks devices = [] ->
             reason = "runtime error: index out of range")
       /\ (forall devices disk rest,
             Devices example.diskless = Some devices -> Disks devices = disk :: rest ->
             reason = "runtime error: invalid memory address or nil pointer dereference").
Proof.
  intros w. split; [ reflexivity | ].
  apply (first_disk_is_required example.diskless "worker-0.ign" w). reflexivity.
Defined.

(** ** The resolver *)

Lemma createFile_run ign w tmp :
  tempName ign w = Some tmp ->
  let P := Content ign in
  let fs := withTemp tmp (files w) in
  let w1 := with_files w fs in
  createFile ign w =
  match fs !! P with
  | None | Some Inaccessible =>
      match json.Unmarshal P with
      | Some _ => (Returns (EmptyString, Some (InvalidConfiguration P)), w1)
      | None =>
          if diskFull (sys w) && negb (String.eqb P EmptyString)
          then (Returns (EmptyString,
                         Some (New "Cannot write Ignition object to temporary ignition file")),
                w1)
          else (Returns (tmp, None), with_files w (<[tmp := File P true]> fs))
      end
  | Some (File data true) =>
      if diskFull (sys w) && negb (String.eqb data EmptyString)
      then (Returns (EmptyString,
                     Some (New ("Error copying supplied Igition file to temporary file: " +:+ P))),
            w1)
      else (Returns (tmp, None),
            with_files w (<[tmp := File data true]> fs))
  | Some (File _ false) =>
      (Returns (EmptyString, Some (New ("Error opening supplied Ignition file " +:+ P))), w1)
  | Some Directory =>
      (Returns (EmptyString,
                Some (New ("Error copying supplied Igition file to temporary file: " +:+ P))),
       w1)
  end.
Proof.
  unfold tempName. intros Htmp. cbn zeta.
  unfold createFile, func, bind, ioutil.TempFile.
  destruct (tempDirErr (sys w)); [ discriminate | ].
  destruct (ioutil.firstFree _ _ _ _) as [name [e|]]; [ discriminate | ].
  injection Htmp as ->. cbn [isErr when ret fst snd].
  unfold os.Stat, os.Open, io.Copy, os.WriteString, withTemp, InvalidConfiguration.
  cbn [files sys with_files].
  destruct (<[tmp:=File EmptyString true]> (files w) !! Content ign)
    as [[data [|]| |]|] eqn:HP; cbn [isErr negb ret when return_ files sys with_files].
  - rewrite HP. cbn [isErr when ret return_ files sys with_files].
    rewrite HP, lookup_insert_eq.
    destruct (diskFull (sys w) && negb (data =? EmptyString)%string);
      cbn [isErr when ret return_ with_files files sys]; reflexivity.
  - rewrite HP. reflexivity.
  - rewrite HP. cbn [isErr when ret return_ files sys with_files].
    rewrite HP. reflexivity.
  - destruct (json.Unmarshal (Content ign)); cbn [when return_ ret negb]; [ reflexivity | ].
    cbn [files sys with_files isErr]. rewrite lookup_insert_eq.
    destruct (diskFull (sys w) && negb (Content ign =? EmptyString)%string);
      cbn [isErr when ret return_ with_files files sys]; reflexivity.
  - destruct (json.Unmarshal (Content ign)); cbn [when return_ ret negb]; [ reflexivity | ].
    cbn [files sys with_files isErr]. rewrite lookup_insert_eq.
    destruct (diskFull (sys w) && negb (Content ign =? EmptyString)%string);
      cbn [isErr when ret return_ with_files files sys]; reflexivity.
Qed.

Lemma createFile_without_temp ign w :
  tempName ign w = None ->
  exists e,
    createFile ign w
    = (Returns (EmptyString, Some (New ("Cannot create tmp file for Ignition: " +:+ Error e))), w).
Proof.
  unfold tempName, createFile, func, bind, ioutil.TempFile.
  destruct (tempDirErr (sys w)) as [e|].
  - intros _. exists e. reflexivity.
  - destruct (ioutil.firstFree _ _ _ _) as [name [e|]]; [ | discriminate ].
    intros _. exists e. reflexivity.
Qed.

(** The name of the temporary file is free before the call. *)
Lemma tempName_free ign w tmp : tempName ign w = Some tmp -> files w !! tmp = None.
Proof.
  unfold tempName. destruct (tempDirErr (sys w)); [ discriminate | ].
  generalize (randomNames (sys w)). intros names.
  induction names as [|r names IH]; cbn; [ discriminate | ].
  destruct (files w !! (TempDir (sys w) +:+ "/" +:+ Name ign +:+ r)) as [[| |]|] eqn:E;
    [ exact IH | exact IH | discriminate | ].
  intros [= <-]. exact E.
Qed.

(** The files that may be read once the temporary file is there are those
    that could be read before, and the temporary file itself. *)
Lemma readable_with_temp fs tmp P :
  fs !! tmp = None ->
  readableFile (withTemp tmp fs) P <-> readableFile fs P \/ P = tmp.
Proof.
  intros Hfree. unfold readableFile, withTemp. split.
  - intros [data H]. destruct (decide (tmp = P)) as [->|Hne]; [ right; reflexivity | ].
    rewrite lookup_insert_ne in H by exact Hne. left. eauto.
  - intros [[data H]| ->].
    + exists data. rewrite lookup_insert_ne; [ exact H | congruence ].
    + exists EmptyString. apply lookup_insert_eq.
Qed.

(** *** The decoder *)

Lemma scanAll_failed limit data : json.scanAll limit json.failed data = json.failed.
Proof. induction data as [|c data IH]; [ reflexivity | exact IH ]. Qed.

(** The limit on the nesting only ever makes the scanner fail. *)
Lemma scan_limit limit s c :
  json.scan limit s c = json.scan None s c \/ json.scan limit s c = json.failed.
Proof.
  destruct limit as [n|]; [ | left; reflexivity ].
  unfold json.scan, json.doBeginValue, json.pushParseState.
  destruct (json.scan_step s); try (left; reflexivity);
    repeat case_match; auto.
Qed.

Lemma scanAll_limit limit s data :
  json.scanAll limit s data = json.scanAll None s data
  \/ json.scanAll limit s data = json.failed.
Proof.
  revert s. induction data as [|c data IH]; intros s; cbn [json.scanAll];
    [ left; reflexivity | ].
  destruct (scan_limit limit s c) as [-> | ->]; [ apply IH | right; apply scanAll_failed ].
Qed.

(** What [checkValid] accepts is a document by the grammar. *)
Lemma checkValid_wellFormed P : json.checkValid P = true -> json.wellFormed P = true.
Proof.
  unfold json.checkValid, json.wellFormed, json.checkValidWith.
  destruct (scanAll_limit (Some json.maxNestingDepth) (json.goto json.stateBeginValue []) P)
    as [-> | ->]; [ | discriminate ].
  destruct (scan_limit (Some json.maxNestingDepth)
              (json.scanAll None (json.goto json.stateBeginValue []) P) " "%char)
    as [-> | ->]; [ trivial | discriminate ].
Qed.

(** [json.Unmarshal] accepts an object that is within the limits of the
    decoder. *)
Lemma Unmarshal_object P :
  jsonObject P = true -> withinDecoderLimits P = true -> json.Unmarshal P = None.
Proof.
  unfold jsonObject, withinDecoderLimits, json.Unmarshal, json.isByte.
  intros Hobj Hlim. apply andb_true_iff in Hobj as [_ Hobj].
  apply andb_true_iff in Hlim as [-> Hall]. cbn [negb].
  destruct (json.firstByte P) as [c|]; [ | discriminate ]. rewrite Hobj.
  destruct (List.find _ _) as [n|] eqn:E; [ exfalso | reflexivity ].
  apply List.find_some in E as [Hin Hneg].
  rewrite forallb_forall in Hall. rewrite (Hall n Hin) in Hneg. discriminate.
Qed.

(** It accepts well-formed documents only, and of these only objects and
    the literal [null]. *)
Lemma Unmarshal_wellFormed P : json.Unmarshal P = None -> json.wellFormed P = true.
Proof.
  unfold json.Unmarshal. intros H. apply checkValid_wellFormed.
  destruct (json.checkValid P); [ reflexivity | discriminate ].
Qed.

Lemma Unmarshal_kind P k :
  json.Unmarshal P = None -> kindOf P = Some k -> k = object \/ k = null.
Proof.
  unfold json.Unmarshal, kindOf, json.isByte.
  destruct (json.checkValid P); cbn [negb]; [ | discriminate ].
  destruct (json.firstByte P) as [c|]; [ | discriminate ].
  destruct (Ascii.eqb c "{"); [ intros _ [= <-]; auto | ].
  destruct (Ascii.eqb c "n") eqn:En.
  - apply Ascii.eqb_eq in En as ->. intros _ [= <-]. auto.
  - repeat case_match; discriminate.
Qed.

(** C1, as the specification has it, fails: [/etc/shadow] exists and may not
    be read, it is no JSON either, and the resolver answers with the error
    of the open, not with [InvalidConfiguration]. *)
Lemma unreadable_file_counterexample :
  ~ resolverAsSpecified (example.ign "/etc/shadow") (example.world example.healthy).
Proof.
  unfold resolverAsSpecified. intros [_ H].
  assert (Hfail : ~ succeeds (fst (createFile (example.ign "/etc/shadow")
                                     (example.world example.healthy)))).
  { intros [name Hname]. vm_compute in Hname. discriminate Hname. }
  specialize (H Hfail). vm_compute in H. discriminate H.
Qed.

Example unreadable_file_run :
  fst (createFile (example.ign "/etc/shadow") (example.world example.healthy))
  = Returns (EmptyString, Some (New "Error opening supplied Ignition file /etc/shadow")).
Proof. vm_compute. reflexivity. Qed.

(** C1, amended.  When the temporary file can be made and the disk is not
    full, the resolver goes by what [os.Stat] finds at the content once the
    temporary file is there.  A path that [os.Stat] finds is taken as a file
    and never parsed: the resolver succeeds when it is a regular file that
    may be read, and fails with the error of the open or of the copy when
    it is not, never with [InvalidConfiguration].  A content for which
    [os.Stat] fails is taken as a document: the resolver succeeds when it is
    a well-formed JSON object within the limits of the decoder, and fails
    with [InvalidConfiguration] when it is not well-formed JSON or its value
    is an array, a string, a number or a boolean.  It succeeds for no other
    content than a readable file or a well-formed document, and it fails
    with [InvalidConfiguration] only when [os.Stat] fails. *)
Theorem resolver_outcome ign w tmp :
  tempName ign w = Some tmp ->
  diskFull (sys w) = false ->
  let P := Content ign in
  let fs := withTemp tmp (files w) in
  let r := fst (createFile ign w) in
  (forall data, fs !! P = Some (File data true) -> r = Returns (tmp, None))
  /\ (forall data,
        fs !! P = Some (File data false) ->
        r = Returns (EmptyString, Some (New ("Error opening supplied Ignition file " +:+ P))))
  /\ (fs !! P = Some Directory ->
      r = Returns (EmptyString,
                   Some (New ("Error copying supplied Igition file to temporary file: " +:+ P))))
  /\ (statFails fs P -> jsonObject P = true -> withinDecoderLimits P = true ->
      r = Returns (tmp, None))
  /\ (statFails fs P -> json.wellFormed P = false ->
      r = Returns (EmptyString, Some (InvalidConfiguration P)))
  /\ (forall k,
        statFails fs P -> kindOf P = Some k -> k <> object -> k <> null ->
        r = Returns (EmptyString, Some (InvalidConfiguration P)))
  /\ (succeeds r -> readableFile fs P \/ (statFails fs P /\ json.wellFormed P = true))
  /\ (r = Returns (EmptyString, Some (InvalidConfiguration P)) -> statFails fs P).
Proof.
  intros Htmp Hfull. cbn zeta.
  rewrite (createFile_run ign w tmp Htmp). cbn zeta. rewrite Hfull. cbn [andb].
  unfold succeeds, readableFile, statFails, InvalidConfiguration.
  assert (Hinline :
    match json.Unmarshal (Content ign) with
    | Some _ =>
        (Returns (EmptyString,
                  Some (New ("coreos_ignition 'content' is neither a file nor a valid json object "
                             +:+ Content ign))),
         with_files w (withTemp tmp (files w)))
    | None =>
        (Returns (tmp, None : option error),
         with_files w (<[tmp:=File (Content ign) true]> (withTemp tmp (files w))))
    end.1
    = match json.Unmarshal (Content ign) with
      | Some _ =>
          Returns (EmptyString,
                   Some (New ("coreos_ignition 'content' is neither a file nor a valid json object "
                              +:+ Content ign)))
      | None => Returns (tmp, None)
      end) by (destruct (json.Unmarshal (Content ign)); reflexivity).
  destruct (withTemp tmp (files w) !! Content ign) as [[data [|]| |]|] eqn:HP; cbn [fst].
  1-3: repeat split; try discriminate; try congruence; eauto;
       try (intros [H|H]; discriminate H); try (intros ? [H|H]; discriminate H);
       try (intros [? [=]]).
  all: rewrite Hinline; clear Hinline.
  all: repeat split; try discriminate; auto.
  all: try (intros _ Hobj Hlim; rewrite (Unmarshal_object _ Hobj Hlim); reflexivity).
  all: try (intros _ Hwf; destruct (json.Unmarshal (Content ign)) eqn:HU; [ reflexivity | ];
            apply Unmarshal_wellFormed in HU; congruence).
  all: try (intros k _ Hk Ho Hn; destruct (json.Unmarshal (Content ign)) eqn:HU;
            [ reflexivity | ]; destruct (Unmarshal_kind _ _ HU Hk); contradiction).
  all: intros [name Hname]; right; split; auto;
       destruct (json.Unmarshal (Content ign)) eqn:HU; [ discriminate Hname | ];
       exact (Unmarshal_wellFormed _ HU).
Qed.

Lemma resolver_outcome_witness :
  let ign := example.ign example.document in
  let w := example.world example.healthy in
  let tmp := "/tmp/worker-0.ign495051" in
  let P := Content ign in
  let fs := withTemp tmp (files w) in
  let r := fst (createFile ign w) in
  (tempName ign w = Some tmp /\ diskFull (sys w) = false)
  /\ (forall data, fs !! P = Some (File data true) -> r = Returns (tmp, None))
  /\ (forall data,
        fs !! P = Some (File data false) ->
        r = Returns (EmptyString, Some (New ("Error opening supplied Ignition file " +:+ P))))
  /\ (fs !! P = Some Directory ->
      r = Returns (EmptyString,
                   Some (New ("Error copying supplied Igition file to temporary file: " +:+ P))))
  /\ (statFails fs P -> jsonObject P = true -> withinDecoderLimits P = true ->
      r = Returns (tmp, None))
  /\ (statFails fs P -> json.wellFormed P = false ->
      r = Returns (EmptyString, Some (InvalidConfiguration P)))
  /\ (forall k,
        statFails fs P -> kindOf P = Some k -> k <> object -> k <> null ->
        r = Returns (EmptyString, Some (InvalidConfiguration P)))
  /\ (succeeds r -> readableFile fs P \/ (statFails fs P /\ json.wellFormed P = true))
  /\ (r = Returns (EmptyString, Some (InvalidConfiguration P)) -> statFails fs P).
Proof.
  intros ign w tmp P fs r. split; [ split; reflexivity | ].
  apply (resolver_outcome ign w tmp); reflexivity.
Defined.

(** What the resolver does with documents on which the amended statement
    is silent, and with a path that cannot be reached. *)
Example resolver_accepts_null :
  jsonObject "null" = false
  /\ fst (createFile (example.ign "null") (example.world example.healthy))
     = Returns ("/tmp/worker-0.ign495051", None).
Proof. vm_compute. split; reflexivity. Qed.

Example resolver_refuses_large_number :
  let P := "{" +:+ example.dq +:+ "a" +:+ example.dq +:+ ":1e999}" in
  jsonObject P = true
  /\ fst (createFile (example.ign P) (example.world example.healthy))
     = Returns (EmptyString, Some (InvalidConfiguration P)).
Proof. vm_compute. split; reflexivity. Qed.

Example resolver_refuses_deep_nesting :
  let shallow := example.nested (Z.to_nat json.maxNestingDepth - 1) in
  let deep := example.nested (Z.to_nat json.maxNestingDepth) in
  let w := example.world example.healthy in
  jsonObject deep = true
  /\ succeeded (fst (createFile (example.ign shallow) w)) = true
  /\ succeeded (fst (createFile (example.ign deep) w)) = false.
Proof. vm_compute. repeat split; reflexivity. Qed.

Example unreachable_path_run :
  statFails (files example.locked) "/root/worker.ign"
  /\ fst (createFile (example.ign "/root/worker.ign") example.locked)
     = Returns (EmptyString, Some (InvalidConfiguration "/root/worker.ign")).
Proof. split; [ right | ]; vm_compute; reflexivity. Qed.

Example resolver_accepts_document :
  fst (createFile (example.ign example.document) (example.world example.healthy))
  = Returns ("/tmp/worker-0.ign495051", None)
  /\ fst (createFile (example.ign "/srv/worker.ign") (example.world example.healthy))
     = Returns ("/tmp/worker-0.ign495051", None)
  /\ fst (createFile (example.ign "not json") (example.world example.healthy))
     = Returns (EmptyString, Some (InvalidConfiguration "not json")).
Proof. vm_compute. repeat split; reflexivity. Qed.

(** The resolver returns the name [ioutil.TempFile] has chosen. *)
Lemma createFile_name ign w tmp w' :
  createFile ign w = (Returns (tmp, None), w') -> tempName ign w = Some tmp.
Proof.
  destruct (tempName ign w) as [t|] eqn:Htmp.
  - rewrite (createFile_run ign w t Htmp). cbn zeta.
    repeat case_match; intros [= <- <-]; reflexivity.
  - destruct (createFile_without_temp ign w Htmp) as [e ->]. discriminate.
Qed.

(** C8. What the resolver has written when it succeeds: for a content that
    names an existing file, the temporary file holds the bytes of that file,
    which is left as it was; for a content that names nothing, it holds the
    bytes of the content itself.  The temporary file is new. *)
Theorem resolver_round_trip ign w tmp w' :
  createFile ign w = (Returns (tmp, None), w') ->
  let P := Content ign in
  files w !! tmp = None
  /\ (forall data readable,
        files w !! P = Some (File data readable) ->
        files w' !! tmp = Some (File data true)
        /\ files w' !! P = Some (File data readable))
  /\ (files w !! P = None -> P <> tmp -> files w' !! tmp = Some (File P true)).
Proof.
  intros Hrun. cbn zeta.
  pose proof (createFile_name _ _ _ _ Hrun) as Htmp.
  pose proof (tempName_free _ _ _ Htmp) as Hfree.
  rewrite (createFile_run ign w tmp Htmp) in Hrun. cbn zeta in Hrun.
  unfold withTemp in Hrun.
  split; [ exact Hfree | split ].
  - intros data readable HP.
    assert (Hne : tmp <> Content ign) by congruence.
    rewrite lookup_insert_ne, HP in Hrun by exact Hne.
    destruct readable; [ | discriminate Hrun ].
    destruct (diskFull (sys w) && _); [ discriminate Hrun | ].
    injection Hrun as <-. cbn [files with_files].
    rewrite lookup_insert_eq, lookup_insert_ne, lookup_insert_ne, HP by exact Hne.
    split; reflexivity.
  - intros HP Hne.
    rewrite lookup_insert_ne, HP in Hrun by congruence.
    destruct (json.Unmarshal (Content ign)); [ discriminate Hrun | ].
    destruct (diskFull (sys w) && _); [ discriminate Hrun | ].
    injection Hrun as <-. cbn [files with_files].
    rewrite lookup_insert_eq. reflexivity.
Qed.

Lemma resolver_round_trip_witness :
  let ign := example.ign "/srv/worker.ign" in
  let w := example.world example.healthy in
  let tmp := "/tmp/worker-0.ign495051" in
  let w' := snd (createFile ign w) in
  let P := Content ign in
  createFile ign w = (Returns (tmp, None), w')
  /\ files w !! tmp = None
  /\ (forall data readable,
        files w !! P = Some (File data readable) ->
        files w' !! tmp = Some (File data true)
        /\ files w' !! P = Some (File data readable))
  /\ (files w !! P = None -> P <> tmp -> files w' !! tmp = Some (File P true)).
Proof.
  intros ign w tmp w' P.
  assert (Hrun : createFile ign w = (Returns (tmp, None), w')) by (vm_compute; reflexivity).
  split; [ exact Hrun | ].
  apply (resolver_round_trip ign w tmp w'). exact Hrun.
Defined.

Example round_trip_of_a_file :
  let w' := snd (createFile (example.ign "/srv/worker.ign") (example.world example.healthy)) in
  files w' !! "/tmp/worker-0.ign495051" = Some (File example.document true)
  /\ files w' !! "/srv/worker.ign" = Some (File example.document true).
Proof. vm_compute. split; reflexivity. Qed.

Example round_trip_of_a_document :
  let w' := snd (createFile (example.ign example.document) (example.world example.healthy)) in
  files w' !! "/tmp/worker-0.ign495051" = Some (File example.document true).
Proof. vm_compute. reflexivity. Qed.

(** ** The temporary file and the upload *)

(** C4 fails on the code: the content is neither a file nor JSON, the
    resolver has already made the temporary file when it finds that out, and
    [createAndUpload] returns before the removal is deferred, so that the
    file is still there afterwards. *)
Theorem temp_file_survives_resolver_failure :
  let w := example.world example.healthy in
  let out := createAndUpload (example.ign "not json") example.libvirt w in
  fst out = Returns (EmptyString, Some (InvalidConfiguration "not json"))
  /\ files w !! "/tmp/worker-0.ign495051" = None
  /\ files (snd out) !! "/tmp/worker-0.ign495051" = Some (File EmptyString true).
Proof. vm_compute. repeat split; reflexivity. Qed.

(** The temporary file is there when the resolver returns, whether it
    succeeds or fails, and it is a regular file. *)
Lemma createFile_temp_is_file ign w tmp :
  tempName ign w = Some tmp ->
  exists data, files (snd (createFile ign w)) !! tmp = Some (File data true).
Proof.
  intros Htmp. rewrite (createFile_run ign w tmp Htmp). cbn zeta. unfold withTemp.
  repeat case_match; cbn [snd files with_files]; rewrite lookup_insert_eq; eauto.
Qed.

Lemma createFile_leaves_temp ign w tmp :
  tempName ign w = Some tmp -> is_Some (files (snd (createFile ign w)) !! tmp).
Proof. intros Htmp. destruct (createFile_temp_is_file ign w tmp Htmp) as [data ->]. eauto. Qed.

(** Whenever the resolver fails after it has made the temporary file, the
    file stays behind. *)
Lemma resolver_failure_leaks ign c w tmp e :
  tempName ign w = Some tmp ->
  fst (createFile ign w) = Returns (EmptyString, Some e) ->
  fst (createAndUpload ign c w) = Returns (EmptyString, Some e)
  /\ is_Some (files (snd (createAndUpload ign c w)) !! tmp).
Proof.
  intros Htmp Hfail. pose proof (createFile_leaves_temp ign w tmp Htmp) as Hthere.
  unfold createAndUpload, func, bind, call.
  destruct (createFile ign w) as [r w1]. cbn [fst snd] in *. subst r.
  cbn. split; [ reflexivity | exact Hthere ].
Qed.

(** Once the resolver has succeeded, the temporary file is gone when
    [createAndUpload] returns, whatever the later steps do. *)
Lemma upload_removes_temp ign c w tmp w1 :
  createFile ign w = (Returns (tmp, None), w1) ->
  files (snd (createAndUpload ign c w)) !! tmp = None.
Proof.
  intros Hrun.
  pose proof (createFile_temp_is_file ign w tmp (createFile_name _ _ _ _ Hrun)) as Hthere.
  rewrite Hrun in Hthere. cbn [snd] in Hthere. destruct Hthere as [n Hn].
  unfold createAndUpload, func, bind, call. rewrite Hrun.
  cbn [isErr when ret]. unfold defer.
  unfold newImage, size, uploadVolume, bind, call, when, return_, ret, os.Remove.
  repeat (case_match; simplify_eq/=); rewrite ?Hn in *; simplify_eq/=;
    try apply lookup_delete_eq.
Qed.

(** ** The firmware channel *)


Example earlier_tokens_dropped_run :
  let dom :=
    example.domainWith
      (Some {| QEMU_Args := [ {| Value := "-nographic" |} ]; QEMU_Envs := [] |}) in
  let out :=
    setIgnition dom example.libvirt example.ignition example.kube "openshift-machine-api"
      "worker-0.ign" (example.world example.healthy) in
  tokens dom = ["-nographic"]
  /\ exists dom',
       fst out = Returns (dom', None)
       /\ tokens dom'
          = ["-fw_cfg"; "name=opt/com.coreos/config,file=/var/lib/libvirt/default/worker-0.ign"].
Proof. split; [ reflexivity | eexists; vm_compute; split; reflexivity ]. Qed.



(** * Further properties of the code *)

(** ** The process adapter *)

(** X2. Whenever [startCmd] returns an error, the output it returns is empty,
    also when the command had started and printed something before its
    output could not be read further; and it has handed at most the one
    command to the operating system. *)
Theorem startCmd_error_drops_output useRoot env args w out e w' :
  startCmd useRoot env args w = (Returns (out, Some e), w') ->
  out = EmptyString
  /\ (issued w' = issued w
      \/ issued w' = issued w ++ [command (sys w) useRoot env args]).
Proof.
  rewrite startCmd_eq. cbn zeta. unfold started.
  destruct (pipeAndStart _ _ _) as [e1|e1|stdout [e1|]];
    [ | destruct (lookPathErr _) | destruct (lookPathErr _) | destruct (lookPathErr _) ];
    cbn [fst snd];
    intros [= <- <- <-]; cbn [issued with_issued]; rewrite ?app_nil_r; split; auto.
Qed.

Lemma startCmd_error_drops_output_witness :
  let w := example.world example2.readFails in
  let e := New "read |0: file already closed" in
  let w' := with_issued w [command (sys w) true [] ["--listen"; "-a"; example.disk]] in
  startCmd true [] ["--listen"; "-a"; example.disk] w = (Returns (EmptyString, Some e), w')
  /\ EmptyString = EmptyString
  /\ (issued w' = issued w
      \/ issued w'
         = issued w ++ [command (sys w) true [] ["--listen"; "-a"; example.disk]]).
Proof.
  intros w e w'.
  assert (Hrun : startCmd true [] ["--listen"; "-a"; example.disk] w
                 = (Returns (EmptyString, Some e), w')) by (vm_compute; reflexivity).
  split; [ exact Hrun | ].
  apply (startCmd_error_drops_output true [] ["--listen"; "-a"; example.disk] w
           EmptyString e w'). exact Hrun.
Defined.

(** ** The session *)

(** X3. When the listen step fails, the session returns the error of
    [startCmd] as it is and issues no remote command: what it has handed to
    the operating system is the listen command at most. *)
Theorem listen_failure_ends_session dom d f w out e cs :
  diskFile dom = Some d ->
  started (sys w) (issued w) (listenCmd (sys w) d) = ((out, Some e), cs) ->
  injectIgnitionByGuestfish dom f w = (Returns (Some e), with_issued w (issued w ++ cs))
  /\ (cs = [] \/ cs = [listenCmd (sys w) d]).
Proof.
  intros Hd Hst. split; [ | exact (started_cases _ _ _ _ _ Hst) ].
  unfold listenCmd in Hst.
  unfold injectIgnitionByGuestfish, func.
  rewrite (bind_firstDiskFile _ _ _ _ Hd), bind_startCmd. cbn zeta.
  rewrite Hst. reflexivity.
Qed.

Lemma listen_failure_ends_session_witness :
  let w := example.world example2.readFails in
  let e := New "read |0: file already closed" in
  let cs := [listenCmd (sys w) example.disk] in
  (diskFile example.domain = Some example.disk
   /\ started (sys w) (issued w) (listenCmd (sys w) example.disk)
      = ((EmptyString, Some e), cs))
  /\ injectIgnitionByGuestfish example.domain "worker-0.ign" w
     = (Returns (Some e), with_issued w (issued w ++ cs))
  /\ (cs = [] \/ cs = [listenCmd (sys w) example.disk]).
Proof.
  intros w e cs. split; [ split; reflexivity | ].
  apply (listen_failure_ends_session example.domain example.disk "worker-0.ign" w
           EmptyString e cs); reflexivity.
Defined.

(** X7. For a domain whose first disk has a file, the session of the
    current revision never panics: whatever guestfish prints and whatever
    the commands answer, the function returns, with an error or without.
    The index into the segments of the listen output is guarded by the
    check of their number. *)
Theorem session_never_panics dom d f w :
  diskFile dom = Some d ->
  exists r, fst (injectIgnitionByGuestfish dom f w) = Returns r.
Proof.
  intros Hd. destruct (injectIgnitionByGuestfish dom f w) as [r w'] eqn:E.
  revert E. run_session Hd; eexists; reflexivity.
Qed.

Lemma session_never_panics_witness :
  diskFile example.domain = Some example.disk
  /\ exists r,
       fst (injectIgnitionByGuestfish example.domain "worker-0.ign"
              (example.world example.noHandle))
       = Returns r.
Proof.
  split; [ reflexivity | ].
  apply (session_never_panics example.domain example.disk "worker-0.ign"
           (example.world example.noHandle)). reflexivity.
Defined.

(** ** The resolver and the upload *)

(** X4. When no temporary file can be made, because the directory refuses
    it or because every name drawn is taken, the resolver fails with
    [Cannot create tmp file for Ignition] before it looks at the content,
    and leaves its surroundings as they were. *)
Theorem resolver_needs_temp_file ign w :
  tempName ign w = None ->
  exists e,
    createFile ign w
    = (Returns (EmptyString, Some (New ("Cannot create tmp file for Ignition: " +:+ Error e))), w).
Proof. exact (createFile_without_temp ign w). Qed.

Lemma resolver_needs_temp_file_witness :
  tempName (example.ign example.document) example2.crowded = None
  /\ exists e,
       createFile (example.ign example.document) example2.crowded
       = (Returns (EmptyString,
                   Some (New ("Cannot create tmp file for Ignition: " +:+ Error e))),
          example2.crowded).
Proof.
  split; [ vm_compute; reflexivity | ].
  apply (resolver_needs_temp_file (example.ign example.document) example2.crowded).
  vm_compute. reflexivity.
Defined.

Lemma createFile_other_paths ign w p :
  tempName ign w <> Some p ->
  let w' := snd (createFile ign w) in
  files w' !! p = files w !! p
  /\ issued w' = issued w /\ environ w' = environ w /\ sys w' = sys w.
Proof.
  intros Hp. cbn zeta. destruct (tempName ign w) as [tmp|] eqn:Htmp.
  - assert (Hne : tmp <> p) by congruence.
    rewrite (createFile_run ign w tmp Htmp). cbn zeta. unfold withTemp.
    repeat case_match; cbn [snd files issued environ sys with_files];
      rewrite ?lookup_insert_ne by exact Hne; repeat split; reflexivity.
  - destruct (createFile_without_temp ign w Htmp) as [e ->]. repeat split; reflexivity.
Qed.

(** X5. The resolver touches nothing but its temporary file: every other
    path names after the call what it named before, whether the resolver
    succeeds or fails, and neither the environment of the process nor the
    list of issued commands changes. *)
Theorem resolver_touches_temp_only ign w p :
  tempName ign w <> Some p ->
  let w' := snd (createFile ign w) in
  files w' !! p = files w !! p
  /\ issued w' = issued w /\ environ w' = environ w /\ sys w' = sys w.
Proof. exact (createFile_other_paths ign w p). Qed.

Lemma resolver_touches_temp_only_witness :
  let ign := example.ign "/srv/worker.ign" in
  let w := example.world example.healthy in
  let w' := snd (createFile ign w) in
  tempName ign w <> Some "/srv/worker.ign"
  /\ files w' !! "/srv/worker.ign" = files w !! "/srv/worker.ign"
  /\ issued w' = issued w /\ environ w' = environ w /\ sys w' = sys w.
Proof.
  intros ign w w'.
  assert (Hp : tempName ign w <> Some "/srv/worker.ign") by (vm_compute; discriminate).
  split; [ exact Hp | ].
  apply (resolver_touches_temp_only ign w "/srv/worker.ign"). exact Hp.
Defined.

(** What [createAndUpload] does after the resolver has succeeded leaves the
    files as the removal of the temporary file makes them. *)
Lemma createAndUpload_after_resolver ign c w tmp w1 :
  createFile ign w = (Returns (tmp, None), w1) ->
  snd (createAndUpload ign c w) = with_files w1 (delete tmp (files w1)).
Proof.
  intros Hrun.
  pose proof (createFile_temp_is_file ign w tmp (createFile_name _ _ _ _ Hrun)) as Hthere.
  rewrite Hrun in Hthere. cbn [snd] in Hthere. destruct Hthere as [n Hn].
  unfold createAndUpload, func, bind, call. rewrite Hrun.
  cbn [isErr when ret]. unfold defer.
  unfold newImage, size, uploadVolume, bind, call, when, return_, ret, os.Remove.
  repeat (case_match; simplify_eq/=); rewrite ?Hn in *; simplify_eq/=; reflexivity.
Qed.

Lemma files_after_upload ign c w tmp w1 :
  createFile ign w = (Returns (tmp, None), w1) ->
  files (snd (createAndUpload ign c w)) = files w.
Proof.
  intros Hrun. rewrite (createAndUpload_after_resolver ign c w tmp w1 Hrun).
  cbn [files with_files].
  pose proof (createFile_name _ _ _ _ Hrun) as Htmp.
  pose proof (tempName_free _ _ _ Htmp) as Hfree.
  apply map_eq. intros p. destruct (decide (tmp = p)) as [<-|Hne].
  - rewrite lookup_delete_eq, Hfree. reflexivity.
  - rewrite lookup_delete_ne by exact Hne.
    assert (Hp : tempName ign w <> Some p) by congruence.
    pose proof (createFile_other_paths ign w p Hp) as [Hsame _].
    rewrite Hrun in Hsame. exact Hsame.
Qed.

(** X6. Once the resolver has succeeded, [createAndUpload] leaves the local
    filesystem exactly as it found it, whether the later steps (image, size,
    upload to the pool) succeed or fail: the temporary file is removed and
    no other path has changed. *)
Theorem upload_restores_files ign c w tmp w1 :
  createFile ign w = (Returns (tmp, None), w1) ->
  files (snd (createAndUpload ign c w)) = files w.
Proof. exact (files_after_upload ign c w tmp w1). Qed.

Lemma upload_restores_files_witness :
  let ign := example.ign example.document in
  let w := example.world example.healthy in
  let tmp := "/tmp/worker-0.ign495051" in
  let w1 := snd (createFile ign w) in
  createFile ign w = (Returns (tmp, None), w1)
  /\ files (snd (createAndUpload ign example.libvirt w)) = files w.
Proof.
  intros ign w tmp w1.
  assert (Hrun : createFile ign w = (Returns (tmp, None), w1)) by (vm_compute; reflexivity).
  split; [ exact Hrun | ].
  apply (upload_restores_files ign example.libvirt w tmp w1). exact Hrun.
Defined.

(** X8. Whenever the resolver fails after it has made its temporary file
    (the content is neither a file nor JSON, the file cannot be opened or
    copied, the write fails), [createAndUpload] returns the error of the
    resolver and the temporary file is still there: the removal is deferred
    only after the resolver has succeeded. *)
Theorem failed_resolver_leaves_temp_file ign c w tmp e :
  tempName ign w = Some tmp ->
  fst (createFile ign w) = Returns (EmptyString, Some e) ->
  fst (createAndUpload ign c w) = Returns (EmptyString, Some e)
  /\ is_Some (files (snd (createAndUpload ign c w)) !! tmp)
  /\ files w !! tmp = None.
Proof.
  intros Htmp Hfail. pose proof (createFile_leaves_temp ign w tmp Htmp) as Hthere.
  split; [ | split; [ | exact (tempName_free ign w tmp Htmp) ] ].
  - unfold createAndUpload, func, bind, call.
    destruct (createFile ign w) as [r w1]. cbn [fst] in Hfail. subst r. reflexivity.
  - unfold createAndUpload, func, bind, call.
    destruct (createFile ign w) as [r w1]. cbn [fst snd] in *. subst r. exact Hthere.
Qed.

Lemma failed_resolver_leaves_temp_file_witness :
  let ign := example.ign "/etc/shadow" in
  let w := example.world example.healthy in
  let tmp := "/tmp/worker-0.ign495051" in
  let e := New "Error opening supplied Ignition file /etc/shadow" in
  (tempName ign w = Some tmp
   /\ fst (createFile ign w) = Returns (EmptyString, Some e))
  /\ fst (createAndUpload ign example.libvirt w) = Returns (EmptyString, Some e)
  /\ is_Some (files (snd (createAndUpload ign example.libvirt w)) !! tmp)
  /\ files w !! tmp = None.
Proof.
  intros ign w tmp e. split; [ split; vm_compute; reflexivity | ].
  apply (failed_resolver_leaves_temp_file ign example.libvirt w tmp e);
    vm_compute; reflexivity.
Defined.

(** ** The two ways of delivery *)

(** The upload changes nothing but files. *)
Lemma createAndUpload_frame ign c w :
  let w' := snd (createAndUpload ign c w) in
  issued w' = issued w /\ environ w' = environ w /\ sys w' = sys w.
Proof.
  cbn zeta.
  assert (Hres : let w1 := snd (createFile ign w) in
                 issued w1 = issued w /\ environ w1 = environ w /\ sys w1 = sys w).
  { cbn zeta. destruct (tempName ign w) as [tmp|] eqn:Htmp.
    - rewrite (createFile_run ign w tmp Htmp). cbn zeta.
      repeat case_match; repeat split; reflexivity.
    - destruct (createFile_without_temp ign w Htmp) as [e ->]. repeat split; reflexivity. }
  cbn zeta in Hres.
  destruct (createFile ign w) as [[[name [e|]]|reason] w1] eqn:Hrun; cbn [snd] in Hres.
  - unfold createAndUpload, func, bind, call. rewrite Hrun. exact Hres.
  - rewrite (createAndUpload_after_resolver ign c w name w1 Hrun). exact Hres.
  - unfold createAndUpload, func, bind, call. rewrite Hrun. exact Hres.
Qed.

(** X9. Both ways of delivery ask for the user data first.  When the secret
    has no name, or cannot be fetched, or has no key [userData], both
    [setIgnition] and [setIgnitionForS390X] return an error at once: the
    domain is as it was, no temporary file has been made and no command has
    been issued.  The error says which of the three it is. *)
Theorem user_data_is_required dom c ignition kubeClient machineNamespace volumeName w :
  userDataOf kubeClient machineNamespace ignition = None ->
  let name := UserDataSecret ignition in
  let answer := kubernetes.SecretsGet kubeClient machineNamespace name in
  let context reason :=
    "can not retrieve user data secret '" +:+ machineNamespace +:+ "/" +:+ name
    +:+ "' when constructing cloud init volume: " +:+ reason in
  let e :=
    if String.eqb name EmptyString then New "ignition.userDataSecret not set"
    else match snd answer with
         | Some cause => New (context (Error cause))
         | None => New (context "key 'userData' not found in the secret")
         end in
  setIgnition dom c ignition kubeClient machineNamespace volumeName w
  = (Returns (dom, Some e), w)
  /\ setIgnitionForS390X dom c ignition kubeClient machineNamespace volumeName w
     = (Returns (Some e), w).
Proof.
  unfold userDataOf, setIgnition, setIgnitionForS390X, func, bind, call, when, return_, ret.
  destruct (UserDataSecret ignition =? EmptyString)%string; [ intros _; split; reflexivity | ].
  destruct (kubernetes.SecretsGet kubeClient machineNamespace (UserDataSecret ignition))
    as [secret [cause|]]; cbn [isErr fst snd show]; [ intros _; split; reflexivity | ].
  intros ->. split; reflexivity.
Qed.

Lemma user_data_is_required_witness :
  let w := example.world example.healthy in
  let e :=
    New ("can not retrieve user data secret 'openshift-machine-api/worker-user-data' "
         +:+ "when constructing cloud init volume: key 'userData' not found in the secret") in
  userDataOf example2.kubeWithout "openshift-machine-api" example.ignition = None
  /\ setIgnition example.domain example.libvirt example.ignition example2.kubeWithout
       "openshift-machine-api" "worker-0.ign" w
     = (Returns (example.domain, Some e), w)
  /\ setIgnitionForS390X example.domain example.libvirt example.ignition example2.kubeWithout
       "openshift-machine-api" "worker-0.ign" w
     = (Returns (Some e), w).
Proof.
  intros w e. split; [ vm_compute; reflexivity | ].
  apply (user_data_is_required example.domain example.libvirt example.ignition
           example2.kubeWithout "openshift-machine-api" "worker-0.ign" w).
  vm_compute. reflexivity.
Defined.

(** X10. When [setIgnition] returns an error, whichever it is, the domain is
    as it was before the call: its QEMU command line is set only after the
    upload has succeeded. *)
Theorem failed_setIgnition_keeps_domain dom c ignition kubeClient machineNamespace
    volumeName w dom' e w' :
  setIgnition dom c ignition kubeClient machineNamespace volumeName w
  = (Returns (dom', Some e), w') ->
  dom' = dom.
Proof.
  unfold setIgnition, func, bind, call, when, return_, ret.
  destruct (UserDataSecret ignition =? EmptyString)%string; [ intros [= <- _ _]; reflexivity | ].
  destruct (kubernetes.SecretsGet kubeClient machineNamespace (UserDataSecret ignition))
    as [secret [cause|]]; cbn [isErr]; [ intros [= <- _ _]; reflexivity | ].
  destruct (Data secret !! "userData") as [userData|]; [ | intros [= <- _ _]; reflexivity ].
  destruct (createAndUpload _ c w) as [[[V [e1|]]|reason] w1]; cbn [isErr];
    [ intros [= <- _ _]; reflexivity | discriminate | discriminate ].
Qed.

Lemma failed_setIgnition_keeps_domain_witness :
  let w := example.world example.healthy in
  let dom :=
    example.domainWith
      (Some {| QEMU_Args := [ {| Value := "-nographic" |} ]; QEMU_Envs := [] |}) in
  let out :=
    setIgnition dom example.libvirt example.ignition (example2.kubeWith "not json")
      "openshift-machine-api" "worker-0.ign" w in
  out = (Returns (dom, Some (InvalidConfiguration "not json")), snd out)
  /\ dom = dom.
Proof.
  intros w dom out.
  assert (Hrun : out = (Returns (dom, Some (InvalidConfiguration "not json")), snd out))
    by (vm_compute; reflexivity).
  split; [ exact Hrun | ].
  apply (failed_setIgnition_keeps_domain dom example.libvirt example.ignition
           (example2.kubeWith "not json") "openshift-machine-api" "worker-0.ign" w
           dom (InvalidConfiguration "not json") (snd out)).
  exact Hrun.
Defined.

(** X11. The firmware way of delivery runs no external command and leaves
    the environment of the process alone, whatever its outcome: all
    [setIgnition] can change in its surroundings is files. *)
Theorem firmware_path_runs_no_command dom c ignition kubeClient machineNamespace volumeName w :
  let w' := snd (setIgnition dom c ignition kubeClient machineNamespace volumeName w) in
  issued w' = issued w /\ environ w' = environ w /\ sys w' = sys w.
Proof.
  cbn zeta. unfold setIgnition, func, bind, call, when, return_, ret.
  destruct (UserDataSecret ignition =? EmptyString)%string; [ repeat split; reflexivity | ].
  destruct (kubernetes.SecretsGet kubeClient machineNamespace (UserDataSecret ignition))
    as [secret [cause|]]; cbn [isErr]; [ repeat split; reflexivity | ].
  destruct (Data secret !! "userData") as [userData|]; [ | repeat split; reflexivity ].
  pose proof (createAndUpload_frame
                {| Name := volumeName; PoolName := poolName c; Content := userData |} c w)
    as Hframe.
  cbn zeta in Hframe.
  destruct (createAndUpload _ c w) as [[[V [e1|]]|reason] w1]; cbn [isErr snd] in *;
    exact Hframe.
Qed.

(** X12. The other way of delivery is the upload followed by the guestfish
    session: once the user data is there, [setIgnitionForS390X] returns the
    error of the upload without issuing any command when the upload fails,
    and otherwise does exactly what the session does with the identifier of
    the uploaded volume as the file to inject. *)
Theorem s390x_uploads_then_injects dom c ignition kubeClient machineNamespace volumeName
    w userData V err w1 :
  userDataOf kubeClient machineNamespace ignition = Some userData ->
  createAndUpload {| Name := volumeName; PoolName := poolName c; Content := userData |} c w
  = (Returns (V, err), w1) ->
  setIgnitionForS390X dom c ignition kubeClient machineNamespace volumeName w
  = match err with
    | Some e => (Returns (Some e), w1)
    | None => injectIgnitionByGuestfish dom V w1
    end
  /\ issued w1 = issued w.
Proof.
  intros Hdata Hup. split.
  - revert Hdata.
    unfold userDataOf, setIgnitionForS390X, func, bind, call, when, return_, ret.
    destruct (UserDataSecret ignition =? EmptyString)%string; [ discriminate | ].
    destruct (kubernetes.SecretsGet kubeClient machineNamespace (UserDataSecret ignition))
      as [secret [cause|]]; cbn [isErr]; [ discriminate | ].
    intros ->. rewrite Hup. destruct err as [e|]; cbn [isErr]; [ reflexivity | ].
    destruct (injectIgnitionByGuestfish dom V w1) as [[r|reason] w2]; reflexivity.
  - pose proof (createAndUpload_frame
                  {| Name := volumeName; PoolName := poolName c; Content := userData |} c w)
      as [Hissued _].
    rewrite Hup in Hissued. exact Hissued.
Qed.

Lemma s390x_uploads_then_injects_witness :
  let w := example.world example.healthy in
  let V := "/var/lib/libvirt/default/worker-0.ign" in
  (userDataOf example.kube "openshift-machine-api" example.ignition = Some example.document
   /\ createAndUpload
        {| Name := "worker-0.ign"; PoolName := poolName example.libvirt;
           Content := example.document |} example.libvirt w
      = (Returns (V, None), w))
  /\ setIgnitionForS390X example.domain example.libvirt example.ignition example.kube
       "openshift-machine-api" "worker-0.ign" w
     = injectIgnitionByGuestfish example.domain V w
  /\ issued w = issued w.
Proof.
  intros w V. split; [ split; vm_compute; reflexivity | ].
  apply (s390x_uploads_then_injects example.domain example.libvirt example.ignition
           example.kube "openshift-machine-api" "worker-0.ign" w example.document V None w);
    vm_compute; reflexivity.
Defined.

(** ** The older revision: the lookup of the boot filesystem *)

Lemma endsWith_nonempty c s : endsWith c s = true -> s <> EmptyString.
Proof. destruct s; [ discriminate | discriminate ]. Qed.

Lemma endsWith_cons c a s : s <> EmptyString -> endsWith c (String a s) = endsWith c s.
Proof. destruct s; [ congruence | reflexivity ]. Qed.

Lemma endsWith_snoc c s : endsWith c (s +:+ String c EmptyString) = true.
Proof.
  induction s as [|a s IH].
  - cbn. apply Ascii.eqb_refl.
  - change (String a s +:+ String c EmptyString)
      with (String a (s +:+ String c EmptyString)).
    rewrite endsWith_cons; [ exact IH | ]. destruct s; discriminate.
Qed.

(** Every line read ends with the line end. *)
Lemma ReadStrings_lines data cur :
  Forall (fun line => endsWith "010"%char line = true) (legacy.ReadStrings data cur).
Proof.
  revert cur. induction data as [|c data IH]; intros cur; cbn [legacy.ReadStrings].
  - constructor.
  - destruct (Ascii.eqb_spec c "010"%char) as [->|Hne].
    + constructor; [ apply endsWith_snoc | apply IH ].
    + apply IH.
Qed.

(** The last piece of a split ends as the string does. *)
Lemma Split_last_piece c sep s :
  endsWith c s = true -> c <> sep ->
  exists init p, Split s sep = init ++ [p] /\ endsWith c p = true.
Proof.
  intros Hend Hne. induction s as [|a s IH]; [ discriminate | ].
  destruct s as [|b s].
  - cbn in Hend. apply Ascii.eqb_eq in Hend. subst a.
    exists [], (String c EmptyString). cbn [Split].
    destruct (Ascii.eqb_spec c sep) as [E|_]; [ contradiction | ].
    split; [ reflexivity | ]. cbn. apply Ascii.eqb_refl.
  - rewrite endsWith_cons in Hend by discriminate.
    destruct (IH Hend) as (init & p & Hsplit & Hp).
    change (Split (String a (String b s)) sep)
      with (if Ascii.eqb a sep then EmptyString :: Split (String b s) sep
            else match Split (String b s) sep with
                 | piece :: pieces => String a piece :: pieces
                 | [] => [String a EmptyString]
                 end).
    rewrite Hsplit. destruct (Ascii.eqb a sep).
    + exists (EmptyString :: init), p. split; [ reflexivity | exact Hp ].
    + destruct init as [|i init]; cbn [app].
      * exists [], (String a p). split; [ reflexivity | ].
        rewrite endsWith_cons; [ exact Hp | exact (endsWith_nonempty _ _ Hp) ].
      * exists (String a i :: init), p. split; [ reflexivity | exact Hp ].
Qed.

Lemma format_of_line line disk format :
  endsWith "010"%char line = true ->
  Split line ":"%char = [disk; format] ->
  String.eqb format "ext4" = false.
Proof.
  intros Hend Hsplit.
  destruct (Split_last_piece "010"%char ":"%char line Hend) as (init & p & Hs & Hp);
    [ discriminate | ].
  rewrite Hsplit in Hs.
  destruct init as [|x [|y init]]; cbn in Hs; try discriminate Hs.
  - injection Hs as _ <-.
    destruct (String.eqb_spec format "ext4") as [->|]; [ discriminate Hp | reflexivity ].
  - destruct init; discriminate Hs.
Qed.

Lemma findBootDisk_lines lines w :
  Forall (fun line => endsWith "010"%char line = true) lines ->
  legacy.findBootDisk lines w = (Next EmptyString, w)
  \/ exists line,
       In line lines
       /\ length (Split line ":"%char) <> 2%nat
       /\ legacy.findBootDisk lines w
          = (Return (Some (New ("invalid filesystem format: " +:+ line))), w).
Proof.
  induction 1 as [|line lines Hline _ IH]; cbn [legacy.findBootDisk].
  - left. reflexivity.
  - destruct (len (Split line ":"%char) =? 2) eqn:Hlen; cbn [negb when].
    + destruct (len_2 _ Hlen) as (disk & format & Hsplit).
      rewrite bind_ret, Hsplit. cbn [index lookup list_lookup]. rewrite bind_ret.
      rewrite (format_of_line line disk format Hline Hsplit).
      destruct IH as [IH|(l & Hin & Hl & IH)]; [ left; exact IH | right ].
      exists l. split; [ right; exact Hin | split; [ exact Hl | exact IH ] ].
    + right. exists line. rewrite bind_return.
      split; [ left; reflexivity | split; [ exact (len_not_2 _ Hlen) | reflexivity ] ].
Qed.

(** X13. The lookup of the older revision never finds a boot filesystem.
    Each line it reads from the output of [list-filesystems] still ends
    with its line end, so that the text after the colon is never equal to
    [ext4]: for every output, either some line has not exactly two parts
    around [:] and the loop returns the error for that line, or the loop
    ends with an empty [bootDisk]. *)
Theorem legacy_lookup_finds_nothing output w :
  legacy.findBootDisk (legacy.ReadStrings output EmptyString) w = (Next EmptyString, w)
  \/ exists line,
       In line (legacy.ReadStrings output EmptyString)
       /\ length (Split line ":"%char) <> 2%nat
       /\ legacy.findBootDisk (legacy.ReadStrings output EmptyString) w
          = (Return (Some (New ("invalid filesystem format: " +:+ line))), w).
Proof. apply findBootDisk_lines, ReadStrings_lines. Qed.

Example legacy_lookup_on_a_listing :
  let output :=
    "/dev/sda1: ext4" +:+ example.nl +:+ "/dev/sda2: vfat" +:+ example.nl in
  legacy.ReadStrings output EmptyString
  = ["/dev/sda1: ext4" +:+ example.nl; "/dev/sda2: vfat" +:+ example.nl]
  /\ fst (legacy.findBootDisk (legacy.ReadStrings output EmptyString)
            (example.world example.healthy))
     = Next EmptyString.
Proof. vm_compute. split; reflexivity. Qed.

(** ** The older revision: the session *)

Lemma legacy_execCmd_eq args w :
  lookPathErr (command (sys w) false [] args) = None ->
  legacy.execCmd args w =
  let cmd := command (sys w) false [] args in
  (Returns (fst (exec.answer (sys w) (issued w) cmd),
            legacyWrapRun args (snd (exec.answer (sys w) (issued w) cmd))),
   with_issued w (issued w ++ [cmd])).
Proof.
  intros H. unfold legacy.execCmd, func, bind, call. rewrite Command_eq by reflexivity.
  unfold exec.CombinedOutput, exec.answer. rewrite H. cbn.
  destruct (combinedOutput _ _ _) as [out [e|]]; reflexivity.
Qed.

Lemma bind_legacy_execCmd {R B} args (k : string * option error -> Go R B) w :
  lookPathErr (command (sys w) false [] args) = None ->
  bind (call (legacy.execCmd args)) k w =
  let cmd := command (sys w) false [] args in
  k (fst (exec.answer (sys w) (issued w) cmd),
     legacyWrapRun args (snd (exec.answer (sys w) (issued w) cmd)))
    (with_issued w (issued w ++ [cmd])).
Proof. intros H. unfold bind, call. rewrite legacy_execCmd_eq by exact H. reflexivity. Qed.

Lemma bind_next {R A B} (m : Go R A) (k : A -> Go R B) w a w' :
  m w = (Next a, w') -> bind m k w = k a w'.
Proof. intros H. unfold bind. rewrite H. reflexivity. Qed.

Lemma bind_returned {R A B} (m : Go R A) (k : A -> Go R B) w r w' :
  m w = (Return r, w') -> bind m k w = (Return r, w').
Proof. intros H. unfold bind. rewrite H. reflexivity. Qed.

Lemma Split_nonempty s sep : Split s sep <> [].
Proof.
  destruct s as [|c s]; cbn [Split]; [ discriminate | ].
  destruct (Ascii.eqb c sep); [ discriminate | ].
  destruct (Split s sep); discriminate.
Qed.

Lemma legacyStarted_cases s before args r cs :
  legacyStarted s before args = (r, cs) -> cs = [] \/ cs = [command s false [] args].
Proof.
  unfold legacyStarted.
  destruct (pipeAndStart _ _ _); [|destruct (lookPathErr _)|destruct (lookPathErr _)];
    intros [= <- <-]; auto.
Qed.

Lemma legacyStarted_found s before args out cs :
  legacyStarted s before args = (out, None, cs) ->
  lookPathErr (command s false [] args) = None.
Proof.
  unfold legacyStarted. destruct (pipeAndStart _ _ _) as [e|e|o [e|]];
    destruct (lookPathErr _); try discriminate; reflexivity.
Qed.

Ltac step_legacy_exec :=
  rewrite bind_legacy_execCmd
    by (match goal with H : lookPathErr _ = None |- _ => exact H end);
  cbn zeta;
  cbn [sys issued environ files with_issued with_environ];
  rewrite <- ?app_assoc; cbn [app];
  (let out := fresh "out" in let e := fresh "e" in let H := fresh "Hrun" in
   match goal with
   | |- context [exec.answer ?s ?b ?c] => destruct (exec.answer s b c) as [out [e|]] eqn:H
   end);
  cbn [fst snd legacyWrapRun isErr when]; [rewrite bind_return | rewrite bind_ret].

Ltac step_legacy_listen :=
  rewrite bind_legacy_startCmd;
  (let output := fresh "output" in let e := fresh "e" in let cs := fresh "cs" in
   let Hst := fresh "Hst" in
   match goal with
   | |- context [legacyStarted ?s ?b ?a] =>
       destruct (legacyStarted s b a) as [[output [e|]] cs] eqn:Hst
   end;
   [ | pose proof (legacyStarted_found _ _ _ _ _ Hst) ]);
  cbn [fst snd isErr when]; [rewrite bind_return | rewrite bind_ret].

Ltac step_legacy_parse :=
  (let Hlen := fresh "Hlen" in let Hsp := fresh "Hsp" in let seg := fresh "seg" in
   let Hkv := fresh "Hkv" in let key := fresh "key" in let value := fresh "value" in
   match goal with
   | |- context [len (Split ?output ";")] =>
       destruct (len (Split output ";") =? 2) eqn:Hlen; cbn [negb when];
       [ rewrite bind_ret;
         destruct (len_2 _ Hlen) as (seg & ? & Hsp); rewrite Hsp;
         cbn [index lookup list_lookup]; rewrite !bind_ret;
         destruct (Split seg "=") as [|key [|value ?]] eqn:Hkv;
         [ destruct (Split_nonempty _ _ Hkv)
         | cbn [index lookup list_lookup]; rewrite bind_ret, bind_panic
         | cbn [index lookup list_lookup]; rewrite !bind_ret;
           unfold os.Setenv; unfold bind at 1;
           destruct (os.validEnv key value) eqn:?;
           cbn [sys issued environ files with_issued with_environ] ]
       | rewrite bind_return ]
   end).

Ltac step_legacy_lookup :=
  match goal with
  | |- context [legacy.findBootDisk (legacy.ReadStrings ?o EmptyString)] =>
      match goal with
      | |- context [bind (legacy.findBootDisk _) ?k ?w] =>
          let H := fresh "Hfind" in
          destruct (findBootDisk_lines _ w (ReadStrings_lines o EmptyString))
            as [H|(? & _ & _ & H)];
          [ rewrite (bind_next _ _ _ _ _ H) | rewrite (bind_returned _ _ _ _ _ H) ]
      end
  end.

Ltac run_legacy Hd :=
  unfold legacy.injectIgnitionByGuestfish, func;
  rewrite (bind_firstDiskFile _ _ _ _ Hd);
  repeat (first [ step_legacy_listen | step_legacy_parse | step_legacy_exec
                | step_legacy_lookup ]; reconcile);
  cbn [fst snd]; intros [= <- <-];
  cbn [issued with_issued with_environ sys environ files];
  rewrite <- ?app_assoc; cbn [app].

(** X14. The older revision never mounts a device it has found: every
    mount command it issues names the empty device, and a session that
    returns no error has issued such a command. *)
Theorem legacy_mounts_no_device dom f w :
  let out := legacy.injectIgnitionByGuestfish dom f w in
  exists cmds,
    issued (snd out) = issued w ++ cmds
    /\ Forall (fun c => legacyMountDevice c = None \/ legacyMountDevice c = Some EmptyString)
              cmds
    /\ (fst out = Returns None ->
        Exists (fun c => legacyMountDevice c = Some EmptyString) cmds).
Proof.
  cbn zeta. destruct (diskFile dom) as [d|] eqn:Hd.
  - destruct (legacy.injectIgnitionByGuestfish dom f w) as [r w'] eqn:E. revert E.
    run_legacy Hd.
    all: destruct (legacyStarted_cases _ _ _ _ _ Hst) as [-> | ->]; cbn [app].
    all: eexists; split; [ reflexivity | ].
    all: split;
      [ repeat first [ apply List.Forall_nil | apply List.Forall_cons; [ cbn; auto | ] ]
      | first [ discriminate
              | intros _;
                repeat first [ apply List.Exists_cons_hd; reflexivity
                             | apply List.Exists_cons_tl ] ] ].
  - exists []. destruct (firstDiskFile_None (R := option error) dom w Hd) as [reason Hp].
    unfold legacy.injectIgnitionByGuestfish, func, bind. rewrite Hp. cbn.
    rewrite app_nil_r. split; [ reflexivity | split; [ constructor | discriminate ] ].
Qed.

Example legacy_mount_on_a_listing :
  let out :=
    legacy.injectIgnitionByGuestfish example.domain "worker-0.ign"
      (example.world example2.listing) in
  fst out = Returns None
  /\ map Args (issued (snd out)) !! 3%nat
     = Some ["guestfish"; "--remote"; "--"; "mount"; EmptyString; "/"].
Proof. vm_compute. split; reflexivity. Qed.

(** X15. The older revision exports the handle into the environment of the
    provisioning process: once guestfish has printed two segments around
    [;] and the first has at least two parts around [=], of which the
    first two are a key and a value the operating system accepts, the
    environment of the process maps the key to the value after the call,
    however the session ends. *)
Theorem legacy_session_sets_environment dom d f w output seg rest key value more :
  diskFile dom = Some d ->
  legacyStarted (sys w) (issued w) ["--listen"; "-a"; d]
  = ((output, None), [command (sys w) false [] ["--listen"; "-a"; d]]) ->
  Split output ";"%char = [seg; rest] ->
  Split seg "="%char = key :: value :: more ->
  os.validEnv key value = true ->
  environ (snd (legacy.injectIgnitionByGuestfish dom f w)) = <[key := value]> (environ w).
Proof.
  intros Hd Hlisten Hsegs Hparts Hvalid.
  destruct (legacy.injectIgnitionByGuestfish dom f w) as [r w'] eqn:E. revert E.
  run_legacy Hd; try reflexivity.
  all: try congruence.
  all: try (rewrite Hsegs in Hlen; discriminate Hlen).
Qed.

Lemma legacy_session_sets_environment_witness :
  let w := example.world example.healthy in
  let listen := command (sys w) false [] ["--listen"; "-a"; example.disk] in
  (diskFile example.domain = Some example.disk
   /\ legacyStarted (sys w) (issued w) ["--listen"; "-a"; example.disk]
      = ((example.pidLine, None), [listen])
   /\ Split example.pidLine ";"%char = ["GUESTFISH_PID=4513"; " export GUESTFISH_PID"]
   /\ Split "GUESTFISH_PID=4513" "="%char = ["GUESTFISH_PID"; "4513"]
   /\ os.validEnv "GUESTFISH_PID" "4513" = true)
  /\ environ (snd (legacy.injectIgnitionByGuestfish example.domain "worker-0.ign" w))
     = <["GUESTFISH_PID" := "4513"]> (environ w).
Proof.
  intros w listen. split; [ repeat split; reflexivity | ].
  apply (legacy_session_sets_environment example.domain example.disk "worker-0.ign" w
           example.pidLine "GUESTFISH_PID=4513" " export GUESTFISH_PID"
           "GUESTFISH_PID" "4513" []); reflexivity.
Defined.

(** ** The firmware way, once more *)

(** X16. A successful [setIgnition] leaves the local filesystem exactly as
    it found it: the temporary file the resolver made has been removed
    again and no other path has changed. *)
Theorem successful_setIgnition_restores_files dom c ignition kubeClient machineNamespace
    volumeName w dom' w' :
  setIgnition dom c ignition kubeClient machineNamespace volumeName w
  = (Returns (dom', None), w') ->
  files w' = files w.
Proof.
  unfold setIgnition, func, bind, call, when, return_, ret.
  destruct (UserDataSecret ignition =? EmptyString)%string; [ discriminate | ].
  destruct (kubernetes.SecretsGet kubeClient machineNamespace (UserDataSecret ignition))
    as [secret [cause|]]; cbn [isErr]; [ discriminate | ].
  destruct (Data secret !! "userData") as [userData|]; [ | discriminate ].
  set (ign := {| Name := volumeName; PoolName := poolName c; Content := userData |}).
  destruct (createAndUpload ign c w) as [[[V [e1|]]|reason] w1] eqn:Hup; cbn [isErr];
    try discriminate.
  intros [= _ <-].
  destruct (createFile ign w) as [[[tmp [e|]]|reason] w0] eqn:Hres.
  - exfalso. revert Hup. unfold createAndUpload, func, bind, call. rewrite Hres.
    cbn [isErr when return_]. discriminate.
  - pose proof (files_after_upload ign c w tmp w0 Hres) as H.
    rewrite Hup in H. exact H.
  - exfalso. revert Hup. unfold createAndUpload, func, bind, call. rewrite Hres.
    discriminate.
Qed.

Lemma successful_setIgnition_restores_files_witness :
  let w := example.world example.healthy in
  let out :=
    setIgnition example.domain example.libvirt example.ignition example.kube
      "openshift-machine-api" "worker-0.ign" w in
  let dom' :=
    example.domainWith
      (Some {| QEMU_Args :=
                 [ {| Value := "-fw_cfg" |};
                   {| Value := "name=opt/com.coreos/config,file="
                               +:+ "/var/lib/libvirt/default/worker-0.ign" |} ];
               QEMU_Envs := [] |}) in
  out = (Returns (dom', None), snd out)
  /\ files (snd out) = files w.
Proof.
  intros w out dom'.
  assert (Hrun : out = (Returns (dom', None), snd out)) by (vm_compute; reflexivity).
  split; [ exact Hrun | ].
  apply (successful_setIgnition_restores_files example.domain example.libvirt
           example.ignition example.kube "openshift-machine-api" "worker-0.ign" w
           dom' (snd out)).
  exact Hrun.
Defined.
